(** * tohaml: the HTML-to-HAML tree renderer of [tohaml.py]

    A shallow embedding of the translation engine of [tohaml.py] and the
    properties of its attribute classifier, tag renderer and text renderer.

    Text is Python 2 [unicode]: a sequence of code points, here [list N].
    The attribute dictionary of an element is kept in iteration order as an
    association list; the dictionaries of all elements live in a store
    indexed by object identity, and the output stream is part of the state. *)

From Stdlib Require Import NArith ZArith String Ascii List Lia Bool Decimal.
From stdpp Require Import base list gmap.

Local Open Scope Z_scope.

(** ** Unicode strings *)

Abbreviation ustring := (list N).

(** An ASCII literal of the source as a sequence of code points. *)
Definition ustr (s : string) : ustring :=
  List.map N_of_ascii (list_ascii_of_string s).

Definition SPACE : N := 32%N.
Definition LF : N := 10%N.
Definition CR : N := 13%N.

(** [len(s)] as a Python integer. *)
Definition len {A} (s : list A) : Z := Z.of_nat (length s).

(** [' ' * n]: the empty string when [n] is not positive. *)
Definition spaces (n : Z) : ustring := replicate (Z.to_nat n) SPACE.

(** [bool(s)] of a string: non-empty. *)
Definition truthy {A} (s : list A) : bool :=
  match s with [] => false | _ :: _ => true end.

Definition ustring_eqb (a b : ustring) : bool := bool_decide (a = b).

(** [sep.join(pieces)] *)
Fixpoint join (sep : ustring) (pieces : list ustring) : ustring :=
  match pieces with
  | [] => []
  | [p] => p
  | p :: ps => p ++ sep ++ join sep ps
  end.

(** *** Character classes of Python 2.7 [unicode] objects *)

(** [Py_UNICODE_ISSPACE]: the characters [unicode.split()], [lstrip()] and
    [strip()] treat as whitespace. *)
Definition is_space (c : N) : bool :=
  (((9 <=? c) && (c <=? 13)) || ((28 <=? c) && (c <=? 32))
   || (c =? 0x85) || (c =? 0xA0) || (c =? 0x1680) || (c =? 0x180E)
   || ((0x2000 <=? c) && (c <=? 0x200A))
   || (c =? 0x2028) || (c =? 0x2029) || (c =? 0x202F) || (c =? 0x205F)
   || (c =? 0x3000))%N.

(** [Py_UNICODE_ISLINEBREAK]: the characters [unicode.splitlines()] breaks at. *)
Definition is_linebreak (c : N) : bool :=
  (((10 <=? c) && (c <=? 13)) || ((28 <=? c) && (c <=? 30))
   || (c =? 0x85) || (c =? 0x2028) || (c =? 0x2029))%N.

(** *** [unicode.splitlines()]

    A scanner over the text: [line] is the line read so far and [after_cr]
    records that the previous character was a carriage return, so that a
    line feed right after it belongs to the same line break.  A last line
    without terminator is kept when it is not empty. *)
Fixpoint splitlines_acc (after_cr : bool) (line : ustring) (s : ustring)
  : list ustring :=
  match s with
  | [] => if truthy line then [line] else []
  | c :: s' =>
      if after_cr && (c =? LF)%N then splitlines_acc false line s'
      else if is_linebreak c then line :: splitlines_acc (c =? CR)%N [] s'
      else splitlines_acc false (line ++ [c]) s'
  end.

Definition splitlines (s : ustring) : list ustring := splitlines_acc false [] s.

(** *** [unicode.split()] without argument: runs of whitespace separate the
    words, and no word is empty. *)
Fixpoint split_acc (word : ustring) (s : ustring) : list ustring :=
  match s with
  | [] => if truthy word then [word] else []
  | c :: s' =>
      if is_space c
      then (if truthy word then word :: split_acc [] s' else split_acc [] s')
      else split_acc (word ++ [c]) s'
  end.

Definition split (s : ustring) : list ustring := split_acc [] s.

(** *** [unicode.lstrip()] and [unicode.strip()] *)
Fixpoint lstrip (s : ustring) : ustring :=
  match s with
  | [] => []
  | c :: s' => if is_space c then lstrip s' else s
  end.

Definition rstrip (s : ustring) : ustring := rev (lstrip (rev s)).
Definition strip (s : ustring) : ustring := rstrip (lstrip s).

(** ** Text renderer: word wrap *)

Module Wrap.

(** The body of [for word in words] of [indented_string]: the state is the
    pair of [print_line] and [result]. *)
Fixpoint wrap_words (indent full_width : Z) (words : list ustring)
    (print_line result : ustring) : ustring * ustring :=
  match words with
  | [] => (print_line, result)
  | word :: words' =>
      let add_word :=
        if truthy print_line then print_line ++ [SPACE] ++ word else word in
      if len add_word <? full_width
      then wrap_words indent full_width words' add_word result
      else wrap_words indent full_width words' word
             (result ++ spaces indent ++ print_line ++ [LF])
  end.

(** [len(line) - len(line.lstrip())] *)
Definition line_indent (line : ustring) : Z := len line - len (lstrip line).

(** The body of [for line in lines]. *)
Definition wrap_line (indent full_width : Z) (result line : ustring) : ustring :=
  let words := split line in
  let print_line := spaces (line_indent line) in
  let '(print_line, result) :=
    wrap_words indent full_width words print_line result in
  if truthy print_line
  then result ++ spaces indent ++ print_line ++ [LF]
  else result.

(** [indented_string(indent, text, full_width=80)].  As in the source,
    [width] is computed and the comparisons use [full_width]. *)
Definition indented_string (indent : Z) (text : ustring) (full_width : Z)
  : ustring :=
  let width := full_width - indent in
  let lines := splitlines text in
  fold_left (wrap_line indent full_width) lines [].

End Wrap.

(** ** Text renderer: reserved first character and non-ASCII folding *)

Module Text.

(** The index of the first character that is not a space (the [for]/[else]
    loop of [replace_reserved_first_char]). *)
Fixpoint first_non_space (text : ustring) (i : nat) : option nat :=
  match text with
  | [] => None
  | c :: text' => if (c =? SPACE)%N then first_non_space text' (S i) else Some i
  end.

Definition pairs : list (N * ustring) :=
  [(45%N, ustr "&minus;"); (37%N, ustr "&#37;"); (35%N, ustr "%#35")].

Definition replace_reserved_first_char (text : ustring) : ustring :=
  match first_non_space text 0 with
  | None => text
  | Some i_first =>
      fold_left
        (fun text '(char, entity) =>
           if bool_decide (text !! i_first = Some char)
           then take i_first text ++ entity ++ drop (S i_first) text
           else text)
        pairs text
  end.

Definition clean_quotes (html : ustring) : ustring :=
  if ustring_eqb html (ustr "&ldquo;") || ustring_eqb html (ustr "&rdquo;")
  then [34%N]
  else if existsb (ustring_eqb html)
            [ustr "&lsquo;"; ustr "&rsquo;"; ustr "&sbquo;"; ustr "&prime;"]
  then [39%N]
  else if existsb (ustring_eqb html) [ustr "&hellip;"]
  then ustr "..."
  else html.

(** [skip_unicode_to_entities(code)]: [False] on the Cyrillic blocks and the
    two phonetic extensions, which are left as they are. *)
Definition skip_unicode_to_entities (code : N) : bool :=
  (if ((0x0400 <=? code) && (code <=? 0x04FF))
      || ((0x0500 <=? code) && (code <=? 0x052F))
      || ((0x2DE0 <=? code) && (code <=? 0x2DFF))
      || ((0xA640 <=? code) && (code <=? 0xA69F))
      || (code =? 0x1D2B) || (code =? 0x1D78)
   then false else true)%N.

Definition ent (codepoint : N) (name : string) : N * ustring :=
  (codepoint, ustr name).

(** [htmlentitydefs.codepoint2name] of the Python 2 standard library: the
    252 named character references of HTML 4. *)
Definition codepoint2name_table : list (N * ustring) :=
  [ent 34 "quot"; ent 38 "amp"; ent 60 "lt"; ent 62 "gt"; ent 160 "nbsp";
   ent 161 "iexcl"; ent 162 "cent"; ent 163 "pound"; ent 164 "curren";
   ent 165 "yen"; ent 166 "brvbar"; ent 167 "sect"; ent 168 "uml";
   ent 169 "copy"; ent 170 "ordf"; ent 171 "laquo"; ent 172 "not";
   ent 173 "shy"; ent 174 "reg"; ent 175 "macr"; ent 176 "deg";
   ent 177 "plusmn"; ent 178 "sup2"; ent 179 "sup3"; ent 180 "acute";
   ent 181 "micro"; ent 182 "para"; ent 183 "middot"; ent 184 "cedil";
   ent 185 "sup1"; ent 186 "ordm"; ent 187 "raquo"; ent 188 "frac14";
   ent 189 "frac12"; ent 190 "frac34"; ent 191 "iquest"; ent 192 "Agrave";
   ent 193 "Aacute"; ent 194 "Acirc"; ent 195 "Atilde"; ent 196 "Auml";
   ent 197 "Aring"; ent 198 "AElig"; ent 199 "Ccedil"; ent 200 "Egrave";
   ent 201 "Eacute"; ent 202 "Ecirc"; ent 203 "Euml"; ent 204 "Igrave";
   ent 205 "Iacute"; ent 206 "Icirc"; ent 207 "Iuml"; ent 208 "ETH";
   ent 209 "Ntilde"; ent 210 "Ograve"; ent 211 "Oacute"; ent 212 "Ocirc";
   ent 213 "Otilde"; ent 214 "Ouml"; ent 215 "times"; ent 216 "Oslash";
   ent 217 "Ugrave"; ent 218 "Uacute"; ent 219 "Ucirc"; ent 220 "Uuml";
   ent 221 "Yacute"; ent 222 "THORN"; ent 223 "szlig"; ent 224 "agrave";
   ent 225 "aacute"; ent 226 "acirc"; ent 227 "atilde"; ent 228 "auml";
   ent 229 "aring"; ent 230 "aelig"; ent 231 "ccedil"; ent 232 "egrave";
   ent 233 "eacute"; ent 234 "ecirc"; ent 235 "euml"; ent 236 "igrave";
   ent 237 "iacute"; ent 238 "icirc"; ent 239 "iuml"; ent 240 "eth";
   ent 241 "ntilde"; ent 242 "ograve"; ent 243 "oacute"; ent 244 "ocirc";
   ent 245 "otilde"; ent 246 "ouml"; ent 247 "divide"; ent 248 "oslash";
   ent 249 "ugrave"; ent 250 "uacute"; ent 251 "ucirc"; ent 252 "uuml";
   ent 253 "yacute"; ent 254 "thorn"; ent 255 "yuml"; ent 338 "OElig";
   ent 339 "oelig"; ent 352 "Scaron"; ent 353 "scaron"; ent 376 "Yuml";
   ent 402 "fnof"; ent 710 "circ"; ent 732 "tilde"; ent 913 "Alpha";
   ent 914 "Beta"; ent 915 "Gamma"; ent 916 "Delta"; ent 917 "Epsilon";
   ent 918 "Zeta"; ent 919 "Eta"; ent 920 "Theta"; ent 921 "Iota";
   ent 922 "Kappa"; ent 923 "Lambda"; ent 924 "Mu"; ent 925 "Nu";
   ent 926 "Xi"; ent 927 "Omicron"; ent 928 "Pi"; ent 929 "Rho";
   ent 931 "Sigma"; ent 932 "Tau"; ent 933 "Upsilon"; ent 934 "Phi";
   ent 935 "Chi"; ent 936 "Psi"; ent 937 "Omega"; ent 945 "alpha";
   ent 946 "beta"; ent 947 "gamma"; ent 948 "delta"; ent 949 "epsilon";
   ent 950 "zeta"; ent 951 "eta"; ent 952 "theta"; ent 953 "iota";
   ent 954 "kappa"; ent 955 "lambda"; ent 956 "mu"; ent 957 "nu";
   ent 958 "xi"; ent 959 "omicron"; ent 960 "pi"; ent 961 "rho";
   ent 962 "sigmaf"; ent 963 "sigma"; ent 964 "tau"; ent 965 "upsilon";
   ent 966 "phi"; ent 967 "chi"; ent 968 "psi"; ent 969 "omega";
   ent 977 "thetasym"; ent 978 "upsih"; ent 982 "piv"; ent 8194 "ensp";
   ent 8195 "emsp"; ent 8201 "thinsp"; ent 8204 "zwnj"; ent 8205 "zwj";
   ent 8206 "lrm"; ent 8207 "rlm"; ent 8211 "ndash"; ent 8212 "mdash";
   ent 8216 "lsquo"; ent 8217 "rsquo"; ent 8218 "sbquo"; ent 8220 "ldquo";
   ent 8221 "rdquo"; ent 8222 "bdquo"; ent 8224 "dagger"; ent 8225 "Dagger";
   ent 8226 "bull"; ent 8230 "hellip"; ent 8240 "permil"; ent 8242 "prime";
   ent 8243 "Prime"; ent 8249 "lsaquo"; ent 8250 "rsaquo"; ent 8254 "oline";
   ent 8260 "frasl"; ent 8364 "euro"; ent 8465 "image"; ent 8472 "weierp";
   ent 8476 "real"; ent 8482 "trade"; ent 8501 "alefsym"; ent 8592 "larr";
   ent 8593 "uarr"; ent 8594 "rarr"; ent 8595 "darr"; ent 8596 "harr";
   ent 8629 "crarr"; ent 8656 "lArr"; ent 8657 "uArr"; ent 8658 "rArr";
   ent 8659 "dArr"; ent 8660 "hArr"; ent 8704 "forall"; ent 8706 "part";
   ent 8707 "exist"; ent 8709 "empty"; ent 8711 "nabla"; ent 8712 "isin";
   ent 8713 "notin"; ent 8715 "ni"; ent 8719 "prod"; ent 8721 "sum";
   ent 8722 "minus"; ent 8727 "lowast"; ent 8730 "radic"; ent 8733 "prop";
   ent 8734 "infin"; ent 8736 "ang"; ent 8743 "and"; ent 8744 "or";
   ent 8745 "cap"; ent 8746 "cup"; ent 8747 "int"; ent 8756 "there4";
   ent 8764 "sim"; ent 8773 "cong"; ent 8776 "asymp"; ent 8800 "ne";
   ent 8801 "equiv"; ent 8804 "le"; ent 8805 "ge"; ent 8834 "sub";
   ent 8835 "sup"; ent 8836 "nsub"; ent 8838 "sube"; ent 8839 "supe";
   ent 8853 "oplus"; ent 8855 "otimes"; ent 8869 "perp"; ent 8901 "sdot";
   ent 8968 "lceil"; ent 8969 "rceil"; ent 8970 "lfloor"; ent 8971 "rfloor";
   ent 9001 "lang"; ent 9002 "rang"; ent 9674 "loz"; ent 9824 "spades";
   ent 9827 "clubs"; ent 9829 "hearts"; ent 9830 "diams"].

Definition codepoint2name (codepoint : N) : option ustring :=
  match List.find (fun p => (fst p =? codepoint)%N) codepoint2name_table with
  | Some p => Some (snd p)
  | None => None
  end.

(** ['{0}'.format(n)]: the decimal digits of [n]. *)
Fixpoint uint_digits (d : Decimal.uint) : ustring :=
  match d with
  | Nil => []
  | D0 d => 48%N :: uint_digits d
  | D1 d => 49%N :: uint_digits d
  | D2 d => 50%N :: uint_digits d
  | D3 d => 51%N :: uint_digits d
  | D4 d => 52%N :: uint_digits d
  | D5 d => 53%N :: uint_digits d
  | D6 d => 54%N :: uint_digits d
  | D7 d => 55%N :: uint_digits d
  | D8 d => 56%N :: uint_digits d
  | D9 d => 57%N :: uint_digits d
  end.

Definition format_int (n : N) : ustring := uint_digits (N.to_uint n).

(** The piece appended for one character [ch] of a line. *)
Definition piece (codepoint : N) : ustring :=
  if (128 <? codepoint)%N && skip_unicode_to_entities codepoint
  then match codepoint2name codepoint with
       | Some name => clean_quotes (ustr "&" ++ name ++ ustr ";")
       | None => ustr "&#" ++ format_int codepoint ++ ustr ";"
       end
  else [codepoint].

(** [''.join(pieces)] of one line. *)
Definition entities_of_line (line : ustring) : ustring :=
  concat (List.map piece line).

Definition unicode_to_entities (text : ustring) : ustring :=
  join [LF] (List.map entities_of_line (splitlines text)).

End Text.

(** ** Exceptions and the rendering monad *)

Inductive exn := AssertionError | TypeError | IndexError | KeyError.

Inductive result (A : Type) :=
  | Ok (a : A)
  | Raise (e : exn).
Arguments Ok {A} a.
Arguments Raise {A} e.

Definition result_bind {A B} (r : result A) (k : A -> result B) : result B :=
  match r with
  | Ok a => k a
  | Raise e => Raise e
  end.

(** ** Attribute dictionaries *)

(** The value of an attribute: a single string, or the token list the
    parser builds for multi-valued attributes such as [class]. *)
Inductive attr_value :=
  | AStr (s : ustring)
  | AList (tokens : list ustring).

(** A dictionary in iteration order.  Deleting a key and assigning to a key
    that is present both leave the order of the other entries as it is. *)
Abbreviation dict := (list (ustring * attr_value)).

Fixpoint dict_get (key : ustring) (d : dict) : option attr_value :=
  match d with
  | [] => None
  | (k, v) :: d' => if ustring_eqb k key then Some v else dict_get key d'
  end.

(** [del d[key]] *)
Fixpoint dict_del (key : ustring) (d : dict) : dict :=
  match d with
  | [] => []
  | (k, v) :: d' =>
      if ustring_eqb k key then dict_del key d' else (k, v) :: dict_del key d'
  end.

(** [d[key] = value]; the source assigns only to a key that is present. *)
Fixpoint dict_set (key : ustring) (value : attr_value) (d : dict) : dict :=
  match d with
  | [] => [(key, value)]
  | (k, v) :: d' =>
      if ustring_eqb k key then (k, value) :: d'
      else (k, v) :: dict_set key value d'
  end.

(** The state of a render: the attribute dictionary of every element, by the
    identity of the dictionary object, and the text written to the stream.
    An element without an entry has the empty dictionary. *)
Record state := State {
  store : gmap nat dict;
  stream : ustring
}.

Definition M (A : Type) : Type := state -> result A * state.

Definition ret {A} (a : A) : M A := fun st => (Ok a, st).

Definition bind {A B} (m : M A) (k : A -> M B) : M B :=
  fun st =>
    match m st with
    | (Ok a, st') => k a st'
    | (Raise e, st') => (Raise e, st')
    end.

Definition raise {A} (e : exn) : M A := fun st => (Raise e, st).

Definition lift {A} (r : result A) : M A := fun st => (r, st).

(** [elem.attrs] for the element whose dictionary has identity [l]. *)
Definition attrs_of (st : state) (l : nat) : dict := default [] (store st !! l).

Definition get_attrs (l : nat) : M dict :=
  fun st => (Ok (attrs_of st l), st).

Definition put_attrs (l : nat) (d : dict) : M unit :=
  fun st => (Ok tt, State (<[l := d]> (store st)) (stream st)).

(** [print(..., file=stream)] with the text already assembled. *)
Definition write (text : ustring) : M unit :=
  fun st => (Ok tt, State (store st) (stream st ++ text)).

Declare Scope render_scope.
Delimit Scope render_scope with render.
Notation "x <- m ;; k" := (bind m (fun x => k))
  (at level 100, m at next level, right associativity) : render_scope.
Notation "m ;; k" := (bind m (fun _ => k))
  (at level 100, right associativity) : render_scope.
Notation "x <~ r ;; k" := (result_bind r (fun x => k))
  (at level 100, r at next level, right associativity) : render_scope.

(** ** Attribute classifier *)

Module Attr.

Local Open Scope render_scope.

Definition ID : ustring := ustr "id".
Definition CLASS : ustring := ustr "class".

(** One of [#], [.], [{{], [{%] starts here. *)
Definition reserved_here (s : ustring) : bool :=
  match s with
  | 35%N :: _ => true
  | 46%N :: _ => true
  | 123%N :: 123%N :: _ => true
  | 123%N :: 37%N :: _ => true
  | _ => false
  end.

(** [RE_COMPILED.match(s)] for the pattern [.*(?:#|\.|\{\{|\{%).*]: the match
    is anchored at the start, and [.] matches every character but the line
    feed, so the reserved substring is found only on the first line. *)
Fixpoint RE_COMPILED_match (s : ustring) : bool :=
  match s with
  | [] => false
  | c :: s' => reserved_here s || (negb (c =? LF)%N && RE_COMPILED_match s')
  end.

Definition get_element_id (attrs : nat) : M ustring :=
  d <- get_attrs attrs ;;
  match dict_get ID d with
  | Some (AStr v) =>
      if negb (RE_COMPILED_match v)
      then let tag := ustr "#" ++ v in
           put_attrs attrs (dict_del ID d) ;; ret tag
      else ret []
  | Some (AList _) => raise TypeError
  | None => ret []
  end.

Definition markers : list ustring :=
  [ustr "{%"; ustr "%}"; ustr "{{"; ustr "}}"].

Definition member (x : ustring) (l : list ustring) : bool :=
  existsb (ustring_eqb x) l.

(** [[i for i, cls in enumerate(l) if cls in markers]], counting from [i]. *)
Fixpoint marker_positions (i : nat) (l : list ustring) : list nat :=
  match l with
  | [] => []
  | cls :: l' =>
      if member cls markers
      then i :: marker_positions (S i) l'
      else marker_positions (S i) l'
  end.

(** [l[a:b]], [l.insert(i, x)] and [del l[a:b]] for indices in range. *)
Definition slice {A} (a b : nat) (l : list A) : list A := take (b - a) (drop a l).
Definition list_insert_at {A} (i : nat) (x : A) (l : list A) : list A :=
  take i l ++ x :: drop i l.
Definition del_slice {A} (a b : nat) (l : list A) : list A :=
  take a l ++ drop b l.

(** [for end, begin in zip(pos_itr, pos_itr)]: the positions are consumed
    two at a time; a position left alone at the end is dropped by [zip]. *)
Fixpoint fold_pairs (pos_itr : list nat) (cls : list ustring) : list ustring :=
  match pos_itr with
  | end_ :: begin :: pos_itr' =>
      let cls := list_insert_at begin (join [SPACE] (slice begin (end_ + 1) cls)) cls in
      let cls := del_slice (begin + 1) (end_ + 2) cls in
      fold_pairs pos_itr' cls
  | _ => cls
  end.

(** [fold_jinja_tags_in_class] on the token list of [attrs['class']]: the
    list after the in-place edits, or the failed assertion.  [pos] is built
    in increasing order, so [sorted(pos, reverse=True)] is its reverse. *)
Definition fold_jinja_tags (cls : list ustring) : result (list ustring) :=
  if negb (member (ustr "{%") cls) && negb (member (ustr "{{") cls)
  then Ok cls
  else
    let pos := marker_positions 0 cls in
    if negb (Nat.eqb (length pos mod 2) 0) then Raise AssertionError
    else Ok (fold_pairs (rev pos) cls).

(** On a string value the membership tests are substring tests and no
    character equals a two-character marker: [pos] is empty and the value
    stays as it is. *)
Definition fold_jinja_tags_in_class (attrs : nat) : M unit :=
  d <- get_attrs attrs ;;
  match dict_get CLASS d with
  | Some (AList cls) =>
      cls' <- lift (fold_jinja_tags cls) ;;
      put_attrs attrs (dict_set CLASS (AList cls') d)
  | _ => ret tt
  end.

(** The tokens that go to the shorthand: [len(x) > 0 and not RE_COMPILED.match(x)]. *)
Definition plain (x : ustring) : bool :=
  (0 <? len x) && negb (RE_COMPILED_match x).

Definition shorthand (cls : list ustring) : ustring :=
  concat (List.map (fun attr_class => ustr "." ++ attr_class) (List.filter plain cls)).

(** Iterating over a string value yields its characters, and [filter] on a
    string returns a string.  [attrs['class']] is looked up again after the
    folding. *)
Definition get_element_class (attrs : nat) : M ustring :=
  d <- get_attrs attrs ;;
  match dict_get CLASS d with
  | Some _ =>
      fold_jinja_tags_in_class attrs ;;
      d <- get_attrs attrs ;;
      match dict_get CLASS d with
      | Some (AList cls) =>
          let tag := shorthand cls in
          (if existsb RE_COMPILED_match cls
           then put_attrs attrs
                  (dict_set CLASS (AList (List.filter RE_COMPILED_match cls)) d)
           else put_attrs attrs (dict_del CLASS d)) ;;
          ret tag
      | Some (AStr s) =>
          let chars := List.map (fun ch => [ch]) s in
          let tag := shorthand chars in
          (if existsb RE_COMPILED_match chars
           then put_attrs attrs
                  (dict_set CLASS
                     (AStr (concat (List.filter RE_COMPILED_match chars))) d)
           else put_attrs attrs (dict_del CLASS d)) ;;
          ret tag
      | None => raise KeyError
      end
  | None => ret []
  end.

(** [attr_str(attrs)] *)
Definition attr_piece (kv : ustring * attr_value) : ustring :=
  let '(key, val) := kv in
  let piece := key ++ ustr ":" in
  match val with
  | AList l => piece ++ [34%N] ++ join [SPACE] l ++ [34%N]
  | AStr s => piece ++ [34%N] ++ s ++ [34%N]
  end.

Definition attr_str (d : dict) : ustring :=
  if negb (truthy d) then []
  else ustr "{" ++ join (ustr ",") (List.map attr_piece d) ++ ustr "}".

End Attr.

(** ** Tag renderer and tree walker *)

Module Render.

Import Attr.
Local Open Scope render_scope.

(** A node of the parsed tree: a tag with its name, the identity of its
    attribute dictionary and its children, or a string (text or comment). *)
#[warnings="-register-all"]
Inductive node :=
  | Tag (name : ustring) (attrs : nat) (contents : list node)
  | NavigableString (s : ustring).

(** What [print_tag] reads of an element. *)
Record element := Element {
  name : ustring;
  attrs : nat;
  contents : list node;
  previous_sibling : option node;
  next_sibling : option node
}.

Definition is_tag (elem : option node) : bool :=
  match elem with
  | Some (Tag _ _ _) => true
  | _ => false
  end.

(** [unicode(elem)] where the source evaluates it: on a string node its
    text, on [None] the word [None].  It is never evaluated on a tag. *)
Definition unicode (elem : option node) : ustring :=
  match elem with
  | Some (NavigableString s) => s
  | Some (Tag _ _ _) => []
  | None => ustr "None"
  end.

(** [s[0]] and [s[-1]] *)
Definition first_char (s : ustring) : result N :=
  match s with
  | c :: _ => Ok c
  | [] => Raise IndexError
  end.

Definition last_char (s : ustring) : result N :=
  match last s with
  | Some c => Ok c
  | None => Raise IndexError
  end.

(** [is_tag(e) or unicode(e)[-1] != ' '], and the same with [[0]]. *)
Definition nospace_before (e : option node) : result bool :=
  if is_tag e then Ok true
  else c <~ last_char (unicode e) ;; Ok (negb (c =? SPACE)%N).

Definition nospace_after (e : option node) : result bool :=
  if is_tag e then Ok true
  else c <~ first_char (unicode e) ;; Ok (negb (c =? SPACE)%N).

Definition is_outer_nospace (elem : element) : result bool :=
  prev_nospace <~ nospace_before (previous_sibling elem) ;;
  next_nospace <~ nospace_after (next_sibling elem) ;;
  Ok (prev_nospace && next_nospace).

Definition is_inner_nospace (elem : element) : result bool :=
  match contents elem with
  | [] => Ok true
  | first :: _ =>
      first_nospace <~ nospace_after (Some first) ;;
      last_nospace <~ nospace_before (last (contents elem)) ;;
      Ok (first_nospace && last_nospace)
  end.

Definition inline_names : list ustring :=
  [ustr "a"; ustr "span"; ustr "strong"; ustr "em"].

(** The tag-name rule of [print_tag] applied to the shorthand. *)
Definition tag_head (name tag : ustring) : ustring :=
  if ustring_eqb name (ustr "div")
  then (if ustring_eqb tag [] then ustr "%" ++ name else tag)
  else ustr "%" ++ name ++ tag.

(** The two adjacency markers of an inline element. *)
Definition adjacency (elem : element) (tag : ustring) : result ustring :=
  if member (name elem) inline_names
  then
    outer <~ is_outer_nospace elem ;;
    let tag := if outer then tag ++ ustr ">" else tag in
    inner <~ is_inner_nospace elem ;;
    Ok (if inner then tag ++ ustr "<" else tag)
  else Ok tag.

Definition print_tag (indent_str : ustring) (elem : element) : M unit :=
  if ustring_eqb (name elem) (ustr "style")
  then write (indent_str ++ ustr ":css" ++ [LF])
  else
    id_tag <- get_element_id (attrs elem) ;;
    class_tag <- get_element_class (attrs elem) ;;
    let tag := tag_head (name elem) (id_tag ++ class_tag) in
    d <- get_attrs (attrs elem) ;;
    let tag := tag ++ attr_str d in
    tag <- lift (adjacency elem tag) ;;
    write (indent_str ++ tag ++ [LF]).

(** [print_elem(indent, elem, stream)]; the siblings of [elem], which the
    parsed tree links from the node, are passed along with it. *)
Fixpoint print_elem (indent : Z) (prev next : option node) (elem : node)
  : M unit :=
  match elem with
  | Tag name attrs contents =>
      let indent_str := spaces indent in
      print_tag indent_str (Element name attrs contents prev next) ;;
      (fix children (prev : option node) (elems : list node) : M unit :=
         match elems with
         | [] => ret tt
         | child_elem :: elems' =>
             print_elem (indent + 2) prev (head elems') child_elem ;;
             children (Some child_elem) elems'
         end) None contents
  | NavigableString raw_string =>
      let clean_string := Text.replace_reserved_first_char raw_string in
      let clean_string := Text.unicode_to_entities clean_string in
      let print_string := Wrap.indented_string indent clean_string 80 in
      if truthy (strip print_string) then write print_string else ret tt
  end.

End Render.

(** ** Vocabulary of the properties *)

Definition no_linebreak (s : ustring) : Prop :=
  Forall (fun c => is_linebreak c = false) s.

Definition no_space (s : ustring) : Prop :=
  Forall (fun c => is_space c = false) s.

(** A word as [split] yields it: not empty and free of whitespace. *)
Definition is_word (w : ustring) : Prop := w <> [] /\ no_space w.

(** The physical lines of a rendered text. *)
Definition physical_lines (out : ustring) : list ustring := splitlines out.

(** The text that consists of the given lines, each ended by a line feed
    and preceded by [indent] spaces. *)
Definition emit_lines (indent : Z) (lines : list ustring) : ustring :=
  concat (List.map (fun l => spaces indent ++ l ++ [LF]) lines).

(** The lines that the loop over the words emits and the [print_line] it
    ends with, without the string they are appended to. *)
Fixpoint wrap_trace (full_width : Z) (words : list ustring)
    (print_line : ustring) : list ustring * ustring :=
  match words with
  | [] => ([], print_line)
  | word :: words' =>
      let add_word :=
        if truthy print_line then print_line ++ [SPACE] ++ word else word in
      if len add_word <? full_width
      then wrap_trace full_width words' add_word
      else let '(emitted, final) := wrap_trace full_width words' word in
           (print_line :: emitted, final)
  end.

(** The print lines of one input line, in order. *)
Definition print_lines (full_width : Z) (line : ustring) : list ustring :=
  let '(emitted, final) :=
    wrap_trace full_width (split line) (spaces (Wrap.line_indent line)) in
  if truthy final then emitted ++ [final] else emitted.

(** The value contains one of [#], [.], [{{], [{%] somewhere. *)
Fixpoint has_reserved (s : ustring) : bool :=
  match s with
  | [] => false
  | _ :: s' => Attr.reserved_here s || has_reserved s'
  end.

(** The number of marker tokens [{%], [%}], [{{], [}}] of a token list. *)
Definition marker_count (cls : list ustring) : nat :=
  length (List.filter (fun t => Attr.member t Attr.markers) cls).

(** The text ends in an empty line that follows another line. *)
Definition ends_with_empty_line (text : ustring) : bool :=
  match rev (splitlines text) with
  | [] :: _ :: _ => true
  | _ => false
  end.

(** A line the loop has built from words alone: at least one word, single
    spaces between the words, shorter than the full width. *)
Definition clean (full_width : Z) (l : ustring) : Prop :=
  exists w ws, Forall is_word (w :: ws) /\ l = join [SPACE] (w :: ws)
               /\ len l < full_width.

(** A character the folding leaves as it is. *)
Definition stable (c : N) : Prop :=
  (128 <? c)%N && Text.skip_unicode_to_entities c = false.

(** A printable ASCII character. *)
Definition printable (c : N) : bool := ((32 <=? c) && (c <? 127))%N.

(** A string without line feed, such as a token of a whitespace-separated
    attribute value. *)
Definition single_line (s : ustring) : Prop := Forall (fun c => c <> LF) s.

(** The [class] entry of [d'] is what [get_element_class] leaves of the one
    of [d]: the tokens, after folding, that the pattern matches. *)
Definition class_reduced (d d' : dict) : Prop :=
  (exists cls cls',
     dict_get Attr.CLASS d = Some (AList cls) /\
     Attr.fold_jinja_tags cls = Ok cls' /\
     dict_get Attr.CLASS d' =
       Some (AList (List.filter Attr.RE_COMPILED_match cls'))) \/
  (exists s,
     dict_get Attr.CLASS d = Some (AStr s) /\
     dict_get Attr.CLASS d' =
       Some (AStr (concat (List.filter Attr.RE_COMPILED_match
                             (List.map (fun ch => [ch]) s))))).

(** What rendering an element may change of its attribute map [d]. *)
Definition attrs_frame (d d' : dict) : Prop :=
  (forall k, k <> Attr.ID -> k <> Attr.CLASS -> dict_get k d' = dict_get k d) /\
  (dict_get Attr.ID d' = dict_get Attr.ID d \/ dict_get Attr.ID d' = None) /\
  (dict_get Attr.CLASS d' = dict_get Attr.CLASS d \/
   dict_get Attr.CLASS d' = None \/ class_reduced d d').

(** Only the dictionary [l] of the store may differ, and the stream is as
    it was. *)
Definition touches_only (l : nat) (st st' : state) : Prop :=
  stream st' = stream st /\
  forall l', l' <> l -> store st' !! l' = store st !! l'.

(** The text written for a tree rendered from depth 0, with the attribute
    dictionaries [attrs], and how the render ended. *)
Definition rendered (attrs : gmap nat dict) (root : Render.node)
  : result unit * ustring :=
  let '(r, st) := Render.print_elem 0 None None root (State attrs []) in
  (r, stream st).

(** A value between double quotes. *)
Definition quoted (s : ustring) : ustring := [34%N] ++ s ++ [34%N].

(** ** Vocabulary of the further properties *)

(** What stands for the first character of a text that is not a space. *)
Definition escape_first (c : N) : ustring :=
  if (c =? 45)%N then ustr "&minus;"
  else if (c =? 37)%N then ustr "&#37;"
  else if (c =? 35)%N then ustr "%#35"
  else [c].

(** The positions are strictly decreasing and below [n]. *)
Fixpoint desc_below (n : nat) (ps : list nat) : Prop :=
  match ps with
  | [] => True
  | p :: ps' => (p < n)%nat /\ desc_below p ps'
  end.

(** Every token that is a marker stands at one of the positions [ps]. *)
Definition markers_within (ps : list nat) (cls : list ustring) : Prop :=
  forall i t, cls !! i = Some t -> Attr.member t Attr.markers = true -> i ∈ ps.

(** A character that is not whitespace. *)
Definition non_space (c : N) : bool := negb (is_space c).

(** The identities of the attribute dictionaries of the tags of a tree. *)
Fixpoint tag_locs (n : Render.node) : list nat :=
  match n with
  | Render.Tag _ l cs => l :: concat (List.map tag_locs cs)
  | Render.NavigableString _ => []
  end.

(** From [st] to [st'] the stream has only grown, and no dictionary
    outside [locs] has changed. *)
Definition grows_within (locs : list nat) (st st' : state) : Prop :=
  (exists out, stream st' = stream st ++ out) /\
  forall l, l ∉ locs -> store st' !! l = store st !! l.

(** An attribute value, and a dictionary, without line-break character. *)
Definition value_one_line (v : attr_value) : Prop :=
  match v with
  | AStr s => no_linebreak s
  | AList l => Forall no_linebreak l
  end.

Definition dict_one_line (d : dict) : Prop :=
  Forall (fun kv => no_linebreak (fst kv) /\ value_one_line (snd kv)) d.

(** * Properties *)

Import Wrap Text Attr Render.

(** ** Facts on the string operations *)

Arguments is_space : simpl never.
Arguments is_linebreak : simpl never.
Arguments N.eqb : simpl never.
Arguments N.leb : simpl never.

Lemma is_linebreak_cases c :
  is_linebreak c = true ->
  (10 <= c <= 13)%N \/ (28 <= c <= 30)%N \/ c = 0x85%N \/ c = 0x2028%N \/ c = 0x2029%N.
Proof.
  unfold is_linebreak.
  rewrite !orb_true_iff, !andb_true_iff, !N.leb_le, !N.eqb_eq. tauto.
Qed.

Lemma linebreak_is_space c : is_linebreak c = true -> is_space c = true.
Proof.
  intros H. apply is_linebreak_cases in H. unfold is_space.
  rewrite !orb_true_iff, !andb_true_iff, !N.leb_le, !N.eqb_eq.
  destruct H as [H|[H|[H|[H|H]]]].
  - do 11 left. lia.
  - do 10 left. right. lia.
  - do 9 left. right. exact H.
  - do 4 left. right. exact H.
  - do 3 left. right. exact H.
Qed.

Lemma not_space_not_linebreak c : is_space c = false -> is_linebreak c = false.
Proof.
  intros H. destruct (is_linebreak c) eqn:E; [|done].
  apply linebreak_is_space in E. congruence.
Qed.

Lemma no_space_no_linebreak s : no_space s -> no_linebreak s.
Proof.
  unfold no_space, no_linebreak. rewrite !Forall_forall.
  intros H c Hc. apply not_space_not_linebreak. by apply H.
Qed.

Lemma space_not_linebreak : is_linebreak SPACE = false.
Proof. reflexivity. Qed.

Lemma len_app {A} (a b : list A) : len (a ++ b) = len a + len b.
Proof. unfold len. rewrite length_app. lia. Qed.

Lemma len_nonneg {A} (a : list A) : 0 <= len a.
Proof. unfold len. lia. Qed.

Lemma truthy_false {A} (s : list A) : truthy s = false <-> s = [].
Proof. destruct s; simpl; split; congruence. Qed.

Lemma truthy_true {A} (s : list A) : truthy s = true <-> s <> [].
Proof. destruct s; simpl; split; congruence. Qed.

Lemma spaces_nonpos n : n <= 0 -> spaces n = [].
Proof. intros H. unfold spaces. replace (Z.to_nat n) with 0%nat by lia. done. Qed.

Lemma no_linebreak_spaces n : no_linebreak (spaces n).
Proof. unfold spaces, no_linebreak. apply Forall_replicate. reflexivity. Qed.

(** *** [splitlines] *)

Lemma splitlines_acc_line line l s :
  no_linebreak l ->
  splitlines_acc false line (l ++ LF :: s) = (line ++ l) :: splitlines_acc false [] s.
Proof.
  intros Hl. revert line. induction Hl as [|c l Hc Hl IH]; intros line; simpl.
  - by rewrite app_nil_r.
  - rewrite Hc. rewrite IH. by rewrite <- app_assoc.
Qed.

Lemma splitlines_emit_lines ls :
  Forall no_linebreak ls ->
  splitlines (concat (List.map (fun l => l ++ [LF]) ls)) = ls.
Proof.
  unfold splitlines. induction 1 as [|l ls Hl _ IH]; simpl; [done|].
  rewrite <- app_assoc. simpl. rewrite splitlines_acc_line by done.
  simpl. by rewrite IH.
Qed.

Lemma splitlines_acc_no_linebreak b line s :
  no_linebreak line -> Forall no_linebreak (splitlines_acc b line s).
Proof.
  revert b line. induction s as [|c s IH]; intros b line Hline; simpl.
  - destruct (truthy line); [|apply Forall_nil_2].
    apply Forall_cons_2; [done | apply Forall_nil_2].
  - destruct (b && (c =? LF)%N); [by apply IH|].
    destruct (is_linebreak c) eqn:E.
    + apply Forall_cons_2; [done|]. apply IH. apply Forall_nil_2.
    + apply IH. apply Forall_app. split; [done|].
      apply Forall_cons_2; [done | apply Forall_nil_2].
Qed.

Lemma splitlines_no_linebreak s : Forall no_linebreak (splitlines s).
Proof. apply splitlines_acc_no_linebreak. apply Forall_nil_2. Qed.

(** *** [split] *)

Lemma split_acc_word word w s :
  no_space w -> split_acc word (w ++ s) = split_acc (word ++ w) s.
Proof.
  intros Hw. revert word. induction Hw as [|c w Hc Hw IH]; intros word; simpl.
  - by rewrite app_nil_r.
  - rewrite Hc, IH. by rewrite <- app_assoc.
Qed.

Lemma split_acc_words word s :
  no_space word -> Forall is_word (split_acc word s).
Proof.
  revert word. induction s as [|c s IH]; intros word Hword; simpl.
  - destruct word; simpl; [apply Forall_nil_2|].
    apply Forall_cons_2; [split; done | apply Forall_nil_2].
  - destruct (is_space c) eqn:E.
    + destruct word as [|a word]; simpl.
      * apply IH. apply Forall_nil_2.
      * apply Forall_cons_2; [split; done|]. apply IH. apply Forall_nil_2.
    + apply IH. apply Forall_app. split; [done|].
      apply Forall_cons_2; [done | apply Forall_nil_2].
Qed.

Lemma split_words s : Forall is_word (split s).
Proof. apply split_acc_words. apply Forall_nil_2. Qed.

Lemma split_spaces n s : split (spaces n ++ s) = split s.
Proof.
  unfold split, spaces. induction (Z.to_nat n) as [|k IH]; simpl; done.
Qed.

Lemma split_join words :
  Forall is_word words -> split (join [SPACE] words) = words.
Proof.
  unfold split. induction 1 as [|w ws [Hne Hw] Hws IH]; simpl; [done|].
  destruct ws as [|w' ws].
  - pose proof (split_acc_word [] w [] Hw) as E. rewrite app_nil_r in E.
    rewrite E. simpl. destruct w; simpl; congruence.
  - rewrite split_acc_word by done. cbn [app split_acc].
    change (is_space SPACE) with true. cbn iota.
    destruct w; [congruence|]. simpl truthy. cbn iota. f_equal. exact IH.
Qed.

Lemma lstrip_word_head c s : is_space c = false -> lstrip (c :: s) = c :: s.
Proof. intros H. simpl. by rewrite H. Qed.

(** *** The loop of [indented_string] and its trace *)

Lemma emit_lines_app indent a b :
  emit_lines indent (a ++ b) = emit_lines indent a ++ emit_lines indent b.
Proof. unfold emit_lines. by rewrite map_app, concat_app. Qed.

Lemma wrap_words_trace indent fw words pl result :
  wrap_words indent fw words pl result =
  (snd (wrap_trace fw words pl),
   result ++ emit_lines indent (fst (wrap_trace fw words pl))).
Proof.
  revert pl result. induction words as [|w words IH]; intros pl result; simpl.
  - by rewrite app_nil_r.
  - destruct (len _ <? fw); [apply IH|].
    rewrite IH. destruct (wrap_trace fw words w) as [em fin]. simpl.
    unfold emit_lines. simpl. by rewrite <- !app_assoc.
Qed.

Lemma wrap_line_print_lines indent fw result line :
  wrap_line indent fw result line =
  result ++ emit_lines indent (print_lines fw line).
Proof.
  unfold wrap_line, print_lines. rewrite wrap_words_trace.
  destruct (wrap_trace fw (split line) (spaces (line_indent line))) as [em fin].
  simpl. destruct (truthy fin).
  - rewrite emit_lines_app, <- app_assoc. f_equal. f_equal.
    unfold emit_lines. simpl. by rewrite app_nil_r.
  - done.
Qed.

Lemma fold_wrap_line indent fw lines result :
  fold_left (wrap_line indent fw) lines result =
  result ++ emit_lines indent (concat (List.map (print_lines fw) lines)).
Proof.
  revert result. induction lines as [|l lines IH]; intros result; simpl.
  - by rewrite app_nil_r.
  - rewrite IH, wrap_line_print_lines, emit_lines_app. by rewrite app_assoc.
Qed.

Lemma indented_string_print_lines indent text fw :
  indented_string indent text fw =
  emit_lines indent (concat (List.map (print_lines fw) (splitlines text))).
Proof. unfold indented_string. by rewrite fold_wrap_line. Qed.

Lemma physical_lines_emit indent ls :
  Forall no_linebreak ls ->
  physical_lines (emit_lines indent ls) = List.map (app (spaces indent)) ls.
Proof.
  intros H. unfold physical_lines, emit_lines.
  rewrite <- (splitlines_emit_lines (List.map (app (spaces indent)) ls)).
  - f_equal. f_equal. rewrite List.map_map. apply List.map_ext.
    intros l. by rewrite <- app_assoc.
  - rewrite Forall_forall in *. intros l Hl.
    apply list_elem_of_In, in_map_iff in Hl as (l0 & <- & Hl0).
    apply Forall_app. split; [apply no_linebreak_spaces|].
    apply H. by apply list_elem_of_In.
Qed.

(** The lines of a trace are free of line breaks. *)
Lemma wrap_trace_no_linebreak fw words pl :
  Forall no_linebreak words -> no_linebreak pl ->
  Forall no_linebreak (fst (wrap_trace fw words pl)) /\
  no_linebreak (snd (wrap_trace fw words pl)).
Proof.
  intros Hw. revert pl. induction Hw as [|w words Hw _ IH]; intros pl Hpl; simpl.
  - split; [apply Forall_nil_2 | done].
  - assert (no_linebreak (if truthy pl then pl ++ [SPACE] ++ w else w)) as Hadd.
    { destruct (truthy pl); [|done]. apply Forall_app. split; [done|].
      apply Forall_app. split; [|done].
      apply Forall_cons_2; [reflexivity | apply Forall_nil_2]. }
    destruct (len _ <? fw); [by apply IH|].
    destruct (IH w Hw) as [H1 H2].
    destruct (wrap_trace fw words w) as [em fin]. simpl in *.
    split; [by apply Forall_cons_2 | done].
Qed.

Lemma print_lines_no_linebreak fw line :
  Forall no_linebreak (print_lines fw line).
Proof.
  unfold print_lines.
  destruct (wrap_trace_no_linebreak fw (split line) (spaces (line_indent line)))
    as [H1 H2].
  - eapply Forall_impl; [apply split_words|].
    intros w [_ Hw]. by apply no_space_no_linebreak.
  - apply no_linebreak_spaces.
  - destruct (wrap_trace fw (split line) (spaces (line_indent line))) as [em fin].
    simpl in *. destruct (truthy fin); [|done].
    apply Forall_app. split; [done|]. apply Forall_cons_2; [done|apply Forall_nil_2].
Qed.

(** The physical lines the renderer writes for one input line. *)
Lemma physical_lines_wrap_line indent fw line :
  physical_lines (wrap_line indent fw [] line) =
  List.map (app (spaces indent)) (print_lines fw line).
Proof.
  rewrite wrap_line_print_lines. simpl.
  apply physical_lines_emit, print_lines_no_linebreak.
Qed.

(** The shape of a trace: the first emitted line continues the print line
    the loop started with, every later line starts from a word. *)
Lemma wrap_trace_shape fw (Q : ustring -> Prop) words :
  (forall w, w ∈ words -> Q w) ->
  (forall pl w, Q pl -> Q (pl ++ [SPACE] ++ w)) ->
  forall (P : ustring -> Prop) pl,
    (forall w, w ∈ words -> P []  -> P w) ->
    (forall pl w, P pl -> P (pl ++ [SPACE] ++ w)) ->
    P pl ->
    match wrap_trace fw words pl with
    | ([], fin) => P fin
    | (e :: em, fin) => P e /\ Forall Q em /\ Q fin
    end.
Proof.
  intros HQw HQ. induction words as [|w words IH]; intros P pl HPw HP Hpl; simpl.
  - done.
  - assert (P (if truthy pl then pl ++ [SPACE] ++ w else w)) as Hadd.
    { destruct (truthy pl) eqn:E; [by apply HP|].
      apply truthy_false in E. subst pl. apply HPw; [left|done]. }
    destruct (len _ <? fw).
    + apply IH; try done.
      * intros w' Hw'. apply HQw. by right.
      * intros w' Hw'. apply HPw. by right.
    + assert (forall w', w' ∈ words -> Q w') as HQw'.
      { intros w' Hw'. apply HQw. by right. }
      specialize (IH HQw' Q w (fun w' Hw' _ => HQw' w' Hw') HQ (HQw w ltac:(left))).
      destruct (wrap_trace fw words w) as [[|e em] fin].
      * split; [done|]. split; [apply Forall_nil_2 | done].
      * destruct IH as (He & Hem & Hfin).
        split; [done|]. split; [by apply Forall_cons_2 | done].
Qed.

Lemma indented_string_blocks indent text fw :
  indented_string indent text fw =
  concat (List.map (wrap_line indent fw []) (splitlines text)).
Proof.
  rewrite indented_string_print_lines. unfold emit_lines.
  induction (splitlines text) as [|l ls IH]; simpl; [done|].
  rewrite map_app, concat_app, IH. f_equal.
  by rewrite wrap_line_print_lines.
Qed.

Lemma print_lines_shape fw line first rest :
  print_lines fw line = first :: rest ->
  (exists tail, first = spaces (line_indent line) ++ tail) /\
  Forall (fun pl => exists w tail, (w ∈ split line /\ is_word w) /\ pl = w ++ tail) rest.
Proof.
  unfold print_lines.
  pose proof (wrap_trace_shape fw
    (fun pl => exists w tail, (w ∈ split line /\ is_word w) /\ pl = w ++ tail)
    (split line)) as H.
  specialize (H ltac:(
    intros w Hw; exists w, []; rewrite app_nil_r; split; [split; [done|]|done];
    pose proof (split_words line) as Hs; rewrite Forall_forall in Hs; by apply Hs)).
  specialize (H ltac:(
    intros pl w (w0 & tail & Hw0 & ->); exists w0, (tail ++ [SPACE] ++ w);
    split; [done|]; by rewrite <- app_assoc)).
  specialize (H (fun pl => exists tail, pl = spaces (line_indent line) ++ tail)
                (spaces (line_indent line))).
  specialize (H ltac:(
    intros w _ [tail Ht]; symmetry in Ht; apply app_eq_nil in Ht as [-> _];
    by exists w)).
  specialize (H ltac:(
    intros pl w [tail ->]; exists (tail ++ [SPACE] ++ w); by rewrite <- app_assoc)).
  specialize (H ltac:(exists []; by rewrite app_nil_r)).
  destruct (wrap_trace fw (split line) (spaces (line_indent line)))
    as [[|e em] fin].
  - destruct (truthy fin); simpl; [|done].
    intros [= <- <-]. split; [done | apply Forall_nil_2].
  - destruct H as (He & Hem & Hfin).
    destruct (truthy fin); simpl; intros [= <- <-]; split; try done.
    apply Forall_app. split; [done|]. apply Forall_cons_2; [done|apply Forall_nil_2].
Qed.

(** C2, as amended: of the physical lines written for one input line, the
    first begins with the nesting indent followed by as many spaces as the
    input line has leading whitespace characters; every continuation line
    begins with the nesting indent followed at once by a word of the input
    line, so the indentation of the input line is not applied again. *)
Theorem wrapped_lines_indentation indent fw line first rest :
  physical_lines (wrap_line indent fw [] line) = first :: rest ->
  (exists tail, first = spaces indent ++ spaces (line_indent line) ++ tail) /\
  Forall (fun pl => exists w tail,
            (w ∈ split line /\ is_word w) /\ pl = spaces indent ++ w ++ tail) rest.
Proof.
  rewrite physical_lines_wrap_line.
  destruct (print_lines fw line) as [|f r] eqn:E; simpl; [done|].
  intros [= <- <-]. apply print_lines_shape in E as [[tail ->] Hr].
  split; [by exists tail|].
  rewrite Forall_forall in *. intros pl Hpl.
  apply list_elem_of_In, in_map_iff in Hpl as (pl0 & <- & Hpl0).
  destruct (Hr pl0) as (w & tail' & Hw & ->); [by apply list_elem_of_In|].
  by exists w, tail'.
Qed.

Lemma wrapped_lines_indentation_witness :
  let line := ustr "  " ++ replicate 40 97%N ++ [SPACE] ++ replicate 40 98%N in
  physical_lines (wrap_line 4 80 [] line) =
    [spaces 4 ++ ustr "   " ++ replicate 40 97%N; spaces 4 ++ replicate 40 98%N] /\
  (exists tail,
     spaces 4 ++ ustr "   " ++ replicate 40 97%N =
     spaces 4 ++ spaces (line_indent line) ++ tail) /\
  Forall (fun pl => exists w tail,
            (w ∈ split line /\ is_word w) /\ pl = spaces 4 ++ w ++ tail)
         [spaces 4 ++ replicate 40 98%N].
Proof.
  intros line. split; [vm_compute; reflexivity|].
  apply (wrapped_lines_indentation 4 80 line).
  vm_compute. reflexivity.
Defined.

(** C2, counterexample: an input line indented by two spaces whose second
    word does not fit; the continuation line starts with the word itself. *)
Lemma continuation_line_loses_indentation :
  let line := ustr "  " ++ replicate 40 97%N ++ [SPACE] ++ replicate 40 98%N in
  line_indent line = 2 /\
  physical_lines (indented_string 0 line 80) =
    [ustr "   " ++ replicate 40 97%N; replicate 40 98%N] /\
  ~ (exists tail, replicate 40 98%N = spaces 0 ++ spaces (line_indent line) ++ tail).
Proof.
  split; [reflexivity|]. split; [vm_compute; reflexivity|].
  intros [tail H]. vm_compute in H. discriminate H.
Qed.

(** C1: at nesting indent 2 a text of two words of 39 characters, each of
    which fits in the 78 columns left, is written as one physical line of
    81 characters: the loop compares the line without its indent prefix
    against the full width. *)
Theorem indented_line_exceeds_full_width :
  let text := replicate 39 97%N ++ [SPACE] ++ replicate 39 98%N in
  Forall (fun word => len word <= 80 - 2) (split text) /\
  physical_lines (indented_string 2 text 80) = [spaces 2 ++ text] /\
  len (spaces 2 ++ text) = 81.
Proof.
  split; [|split; vm_compute; reflexivity].
  refine (@bool_decide_unpack _ _ _). vm_compute. exact I.
Qed.

(** *** Wrapping what is already wrapped *)

Lemma join_cons w ws :
  join [SPACE] (w :: ws) = w ++ concat (List.map (cons SPACE) ws).
Proof.
  revert w. induction ws as [|w' ws IH]; intros w.
  - simpl. by rewrite app_nil_r.
  - change (join [SPACE] (w :: w' :: ws)) with (w ++ [SPACE] ++ join [SPACE] (w' :: ws)).
    rewrite IH. simpl. done.
Qed.

Lemma wrap_trace_fits fw ws pl :
  truthy pl = true ->
  len (pl ++ concat (List.map (cons SPACE) ws)) < fw ->
  wrap_trace fw ws pl = ([], pl ++ concat (List.map (cons SPACE) ws)).
Proof.
  revert pl. induction ws as [|w ws IH]; intros pl Hpl Hlen; simpl.
  - by rewrite app_nil_r.
  - rewrite Hpl. simpl in Hlen.
    replace (pl ++ SPACE :: w ++ concat (List.map (cons SPACE) ws))
      with ((pl ++ SPACE :: w) ++ concat (List.map (cons SPACE) ws)) in *
      by (by rewrite <- app_assoc).
    assert ((len (pl ++ SPACE :: w) <? fw) = true) as ->.
    { apply Z.ltb_lt. rewrite len_app in Hlen.
      pose proof (len_nonneg (concat (List.map (cons SPACE) ws))). lia. }
    apply IH; [|done]. destruct pl; done.
Qed.

Lemma clean_no_linebreak fw l : clean fw l -> no_linebreak l.
Proof.
  intros (w & ws & Hws & -> & _). rewrite join_cons.
  apply Forall_cons in Hws as [[_ Hw] Hws].
  apply Forall_app. split; [by apply no_space_no_linebreak|].
  induction Hws as [|w' ws' [_ Hw'] _ IH]; simpl; [apply Forall_nil_2|].
  apply Forall_cons_2; [reflexivity|].
  apply Forall_app. split; [by apply no_space_no_linebreak | done].
Qed.

Lemma clean_print_lines fw l : clean fw l -> print_lines fw l = [l].
Proof.
  intros (w & ws & Hws & -> & Hlen). unfold print_lines.
  rewrite split_join by done.
  pose proof Hws as Hws'. apply Forall_cons in Hws' as [[Hne Hw] _].
  assert (line_indent (join [SPACE] (w :: ws)) = 0) as ->.
  { unfold line_indent. rewrite join_cons. destruct w as [|c w]; [done|].
    apply Forall_cons in Hw as [Hc _]. simpl. rewrite Hc. lia. }
  change (spaces 0) with (@nil N). cbn [wrap_trace truthy].
  rewrite join_cons in *.
  assert ((len w <? fw) = true) as ->.
  { apply Z.ltb_lt. rewrite len_app in Hlen.
    pose proof (len_nonneg (concat (List.map (cons SPACE) ws))). lia. }
  rewrite wrap_trace_fits; [|by destruct w|done].
  destruct w; [done|]. reflexivity.
Qed.

Lemma wrap_trace_clean fw words pl :
  Forall (fun w => is_word w /\ len w < fw) words ->
  pl = [] \/ clean fw pl ->
  Forall (clean fw) (fst (wrap_trace fw words pl)) /\
  (snd (wrap_trace fw words pl) = [] \/ clean fw (snd (wrap_trace fw words pl))).
Proof.
  intros Hw. revert pl.
  induction Hw as [|w words [Hword Hlen] _ IH]; intros pl Hpl; simpl.
  - split; [apply Forall_nil_2 | done].
  - assert (clean fw w) as Hcw.
    { exists w, []. split; [|done]. apply Forall_cons_2; [done|apply Forall_nil_2]. }
    destruct Hpl as [->|Hpl].
    + simpl. apply Z.ltb_lt in Hlen. rewrite Hlen. apply IH. by right.
    + destruct Hpl as (w0 & ws & Hws & Hpl & Hl).
      assert (truthy pl = true) as ->.
      { rewrite Hpl, join_cons. apply Forall_cons in Hws as [[Hne _] _].
        destruct w0; done. }
      cbn [app]. destruct (len (pl ++ SPACE :: w) <? fw) eqn:E.
      * apply IH. right. exists w0, (ws ++ [w]). split; [|split].
        -- rewrite app_comm_cons. apply Forall_app. split; [done|].
           apply Forall_cons_2; [done|apply Forall_nil_2].
        -- rewrite Hpl, !join_cons, map_app, concat_app. simpl.
           rewrite app_nil_r. by rewrite <- app_assoc.
        -- by apply Z.ltb_lt.
      * destruct (IH w (or_intror Hcw)) as [H1 H2].
        destruct (wrap_trace fw words w) as [em fin]. simpl in *.
        split; [|done]. apply Forall_cons_2; [|done].
        by exists w0, ws.
Qed.

Lemma print_lines_clean fw line :
  lstrip line = line ->
  Forall (fun w => len w < fw) (split line) ->
  Forall (clean fw) (print_lines fw line).
Proof.
  intros Hl Hfit. unfold print_lines, line_indent. rewrite Hl, Z.sub_diag.
  change (spaces 0) with (@nil N).
  destruct (wrap_trace_clean fw (split line) []) as [H1 H2]; [|by left|].
  - pose proof (split_words line) as Hs. rewrite Forall_forall in *.
    intros w Hw. split; [by apply Hs | by apply Hfit].
  - destruct (wrap_trace fw (split line) []) as [em fin]. simpl in *.
    destruct H2 as [->|H2]; [done|].
    destruct (truthy fin); [|done].
    apply Forall_app. split; [done|]. apply Forall_cons_2; [done|apply Forall_nil_2].
Qed.

(** C7, as amended: at nesting indent 0, for a text in which no line starts
    with whitespace and every word is shorter than the full width, wrapping
    the wrapped text again at the same width gives the same text. *)
Theorem indented_string_idempotent text fw :
  Forall (fun line => lstrip line = line /\
                      Forall (fun word => len word < fw) (split line))
         (splitlines text) ->
  indented_string 0 (indented_string 0 text fw) fw = indented_string 0 text fw.
Proof.
  intros H.
  rewrite (indented_string_print_lines 0 text).
  set (E := concat (List.map (print_lines fw) (splitlines text))).
  assert (Forall (clean fw) E) as HE.
  { unfold E. induction H as [|l ls [Hl Hfit] _ IH]; simpl; [apply Forall_nil_2|].
    apply Forall_app. split; [by apply print_lines_clean | done]. }
  rewrite indented_string_print_lines. f_equal.
  change (splitlines (emit_lines 0 E)) with (physical_lines (emit_lines 0 E)).
  rewrite physical_lines_emit.
  2:{ eapply Forall_impl; [exact HE|]. apply clean_no_linebreak. }
  change (spaces 0) with (@nil N). simpl. rewrite List.map_id.
  clear H. induction HE as [|e E' He _ IH]; simpl; [done|].
  rewrite (clean_print_lines fw e He). simpl. by rewrite IH.
Qed.

Lemma indented_string_idempotent_witness :
  indented_string 0 (indented_string 0 (ustr "ab cd") 4) 4 =
  indented_string 0 (ustr "ab cd") 4.
Proof.
  apply indented_string_idempotent.
  refine (@bool_decide_unpack _ _ _). vm_compute. exact I.
Defined.

(** C7, counterexample: a line with one leading space gains a space each
    time it is wrapped. *)
Lemma rewrapping_changes_output :
  ~ (forall indent text fw,
       indented_string indent (indented_string indent text fw) fw =
       indented_string indent text fw).
Proof.
  intros H. specialize (H 0 (ustr " a") 80). vm_compute in H. discriminate H.
Qed.

(** ** Facts on the non-ASCII folding *)

Lemma printable_stable c : printable c = true -> stable c.
Proof.
  unfold printable, stable. rewrite andb_true_iff, N.leb_le, N.ltb_lt.
  intros [_ H]. apply andb_false_iff. left. apply N.ltb_ge. lia.
Qed.

Lemma printable_not_linebreak c : printable c = true -> is_linebreak c = false.
Proof.
  unfold printable. rewrite andb_true_iff, N.leb_le, N.ltb_lt. intros [H1 H2].
  destruct (is_linebreak c) eqn:E; [|done].
  apply is_linebreak_cases in E. lia.
Qed.

Lemma table_names_printable :
  forallb (fun p => forallb printable (snd p)) codepoint2name_table = true.
Proof. vm_compute. reflexivity. Qed.

Lemma codepoint2name_printable c name :
  codepoint2name c = Some name -> forallb printable name = true.
Proof.
  unfold codepoint2name.
  destruct (find _ codepoint2name_table) as [p|] eqn:E; [|done].
  intros [= <-]. apply find_some in E as [Hin _].
  pose proof table_names_printable as H. rewrite forallb_forall in H.
  by apply H.
Qed.

Lemma clean_quotes_printable html :
  forallb printable html = true -> forallb printable (clean_quotes html) = true.
Proof.
  intros H. unfold clean_quotes.
  repeat match goal with |- context [if ?b then _ else _] => destruct b end;
    try reflexivity; exact H.
Qed.

Lemma clean_quotes_nonempty html : html <> [] -> clean_quotes html <> [].
Proof.
  intros H. unfold clean_quotes.
  repeat match goal with |- context [if ?b then _ else _] => destruct b end;
    try discriminate; exact H.
Qed.

Lemma uint_digits_printable d : forallb printable (uint_digits d) = true.
Proof. induction d; simpl; try rewrite IHd; reflexivity. Qed.

(** Every piece is made of characters that a second pass leaves alone. *)
Lemma piece_cases c :
  piece c = [c] /\ stable c \/
  forallb printable (piece c) = true /\ piece c <> [].
Proof.
  unfold piece, stable.
  destruct ((128 <? c)%N && skip_unicode_to_entities c) eqn:E; [right|by left].
  destruct (codepoint2name c) as [name|] eqn:En.
  - split.
    + apply clean_quotes_printable. apply codepoint2name_printable in En.
      rewrite !forallb_app, En. reflexivity.
    + apply clean_quotes_nonempty. discriminate.
  - split; [|discriminate].
    unfold format_int. rewrite !forallb_app, uint_digits_printable. reflexivity.
Qed.

Lemma piece_stable c : Forall stable (piece c).
Proof.
  destruct (piece_cases c) as [[-> H]|[H _]].
  - apply Forall_cons_2; [done | apply Forall_nil_2].
  - rewrite forallb_forall in H. apply Forall_forall. intros x Hx.
    apply printable_stable, H. by apply list_elem_of_In.
Qed.

Lemma piece_no_linebreak c : is_linebreak c = false -> no_linebreak (piece c).
Proof.
  intros Hc. destruct (piece_cases c) as [[-> H]|[H _]].
  - apply Forall_cons_2; [done | apply Forall_nil_2].
  - rewrite forallb_forall in H. apply Forall_forall. intros x Hx.
    apply printable_not_linebreak, H. by apply list_elem_of_In.
Qed.

Lemma piece_nonempty c : piece c <> [].
Proof. destruct (piece_cases c) as [[-> _]|[_ H]]; done. Qed.

Lemma entities_of_stable s : Forall stable s -> entities_of_line s = s.
Proof.
  unfold entities_of_line. induction 1 as [|c s Hc _ IH]; simpl; [done|].
  rewrite IH. unfold piece. unfold stable in Hc. by rewrite Hc.
Qed.

Lemma entities_of_line_stable line : Forall stable (entities_of_line line).
Proof.
  unfold entities_of_line. induction line as [|c line IH]; simpl.
  - apply Forall_nil_2.
  - apply Forall_app. split; [apply piece_stable | done].
Qed.

Lemma entities_of_line_idempotent line :
  entities_of_line (entities_of_line line) = entities_of_line line.
Proof. apply entities_of_stable, entities_of_line_stable. Qed.

Lemma entities_of_line_no_linebreak line :
  no_linebreak line -> no_linebreak (entities_of_line line).
Proof.
  unfold entities_of_line. induction 1 as [|c line Hc _ IH]; simpl.
  - apply Forall_nil_2.
  - apply Forall_app. split; [by apply piece_no_linebreak | done].
Qed.

Lemma entities_of_line_nonempty line :
  line <> [] -> entities_of_line line <> [].
Proof.
  destruct line as [|c line]; [done|]. intros _. unfold entities_of_line. simpl.
  pose proof (piece_nonempty c). destruct (piece c); done.
Qed.

(** *** Splitting what [join] put together *)

Lemma splitlines_acc_last line l :
  no_linebreak l -> line ++ l <> [] ->
  splitlines_acc false line l = [line ++ l].
Proof.
  intros Hl. revert line. induction Hl as [|c l Hc _ IH]; intros line Hne; simpl.
  - rewrite app_nil_r in *. destruct line; done.
  - rewrite Hc. rewrite IH; rewrite <- app_assoc; done.
Qed.

Lemma splitlines_join ls :
  Forall no_linebreak ls -> last ls <> Some [] ->
  splitlines (join [LF] ls) = ls.
Proof.
  unfold splitlines. induction 1 as [|l ls Hl Hls IH]; intros Hlast; [done|].
  destruct ls as [|l' ls].
  - simpl. apply (splitlines_acc_last [] l Hl). simpl in *. congruence.
  - change (join [LF] (l :: l' :: ls)) with (l ++ LF :: join [LF] (l' :: ls)).
    rewrite splitlines_acc_line by done. simpl app. f_equal. apply IH.
    exact Hlast.
Qed.

Lemma last_map {A B} (f : A -> B) (l : list A) :
  last (List.map f l) = option_map f (last l).
Proof.
  induction l as [|a [|b l] IH]; [done|done|]. exact IH.
Qed.

(** C8, as amended: for every text that does not end in an empty line after
    another line, folding the folded text again changes nothing; the pieces
    the first pass writes are made of characters the second pass keeps. *)
Theorem unicode_to_entities_idempotent text :
  ends_with_empty_line text = false ->
  unicode_to_entities (unicode_to_entities text) = unicode_to_entities text.
Proof.
  unfold ends_with_empty_line, unicode_to_entities. intros Hend.
  pose proof (splitlines_no_linebreak text) as Hnl.
  set (ls := splitlines text) in *.
  destruct (decide (last ls = Some [])) as [Hl|Hl].
  - (* the only line is empty *)
    destruct ls as [|l ls] using rev_ind; [done|].
    rewrite last_snoc in Hl. injection Hl as ->.
    rewrite rev_app_distr in Hend. simpl in Hend.
    destruct (rev ls) as [|l' r] eqn:Er; [|done].
    apply (f_equal (@rev _)) in Er. rewrite rev_involutive in Er. subst ls.
    reflexivity.
  - rewrite splitlines_join.
    + rewrite List.map_map. f_equal. apply List.map_ext.
      intros l. apply entities_of_line_idempotent.
    + rewrite Forall_forall in *. intros l Hin.
      apply list_elem_of_In, in_map_iff in Hin as (l0 & <- & Hl0).
      apply entities_of_line_no_linebreak, Hnl. by apply list_elem_of_In.
    + rewrite last_map. destruct (last ls) as [l|] eqn:E; [|done].
      simpl. intros [= H]. apply Hl. f_equal.
      destruct l; [done|]. by apply entities_of_line_nonempty in H.
Qed.

Lemma unicode_to_entities_idempotent_witness :
  unicode_to_entities (unicode_to_entities [233%N; LF; 8217%N; 97%N]) =
  unicode_to_entities [233%N; LF; 8217%N; 97%N].
Proof. apply unicode_to_entities_idempotent. vm_compute. reflexivity. Defined.

(** C8, counterexample: of two line feeds the first pass keeps one and the
    second pass none. *)
Lemma unicode_to_entities_drops_line_end :
  ~ (forall text,
       unicode_to_entities (unicode_to_entities text) = unicode_to_entities text).
Proof.
  intros H. specialize (H [LF; LF]). vm_compute in H. discriminate H.
Qed.

(** ** Facts on dictionaries *)

Lemma dict_get_del_eq k d : dict_get k (dict_del k d) = None.
Proof.
  induction d as [|[k' v] d IH]; simpl; [done|].
  unfold ustring_eqb. case_bool_decide; [done|].
  simpl. unfold ustring_eqb. by rewrite bool_decide_false.
Qed.

Lemma dict_get_del_ne k k' d : k' <> k -> dict_get k' (dict_del k d) = dict_get k' d.
Proof.
  intros Hne. induction d as [|[k0 v] d IH]; simpl; [done|].
  unfold ustring_eqb. repeat case_bool_decide; simpl; unfold ustring_eqb;
    repeat case_bool_decide; congruence.
Qed.

Lemma dict_get_set_eq k v d : dict_get k (dict_set k v d) = Some v.
Proof.
  induction d as [|[k0 v0] d IH]; simpl; unfold ustring_eqb.
  - by rewrite bool_decide_true.
  - case_bool_decide; simpl; unfold ustring_eqb.
    + by rewrite bool_decide_true.
    + by rewrite bool_decide_false.
Qed.

Lemma dict_get_set_ne k k' v d :
  k' <> k -> dict_get k' (dict_set k v d) = dict_get k' d.
Proof.
  intros Hne. induction d as [|[k0 v0] d IH]; simpl; unfold ustring_eqb.
  - by rewrite bool_decide_false.
  - repeat case_bool_decide; simpl; unfold ustring_eqb;
      repeat case_bool_decide; congruence.
Qed.

Lemma dict_set_set k v v' d : dict_set k v (dict_set k v' d) = dict_set k v d.
Proof.
  induction d as [|[k0 v0] d IH]; simpl; unfold ustring_eqb.
  - by rewrite bool_decide_true.
  - case_bool_decide; simpl; unfold ustring_eqb.
    + by rewrite bool_decide_true.
    + rewrite bool_decide_false by done. by rewrite IH.
Qed.

Lemma dict_del_set k v d : dict_del k (dict_set k v d) = dict_del k d.
Proof.
  induction d as [|[k0 v0] d IH]; simpl; unfold ustring_eqb.
  - by rewrite bool_decide_true.
  - case_bool_decide; simpl; unfold ustring_eqb.
    + by rewrite bool_decide_true.
    + rewrite bool_decide_false by done. by rewrite IH.
Qed.

Lemma attrs_of_insert st l d s :
  attrs_of (State (<[l := d]> (store st)) s) l = d.
Proof. unfold attrs_of. simpl. by rewrite lookup_insert_eq. Qed.

(** ** The reserved-character pattern *)

Lemma RE_match_has_reserved s : RE_COMPILED_match s = true -> has_reserved s = true.
Proof.
  induction s as [|c s IH]; [done|].
  cbn [RE_COMPILED_match has_reserved].
  rewrite !orb_true_iff, andb_true_iff. intros [H|[_ H]]; [by left|right; by apply IH].
Qed.

Lemma RE_match_single_line s :
  single_line s -> RE_COMPILED_match s = has_reserved s.
Proof.
  induction 1 as [|c s Hc _ IH]; [done|].
  cbn [RE_COMPILED_match has_reserved]. rewrite IH.
  destruct (N.eqb_spec c LF); [done|]. by rewrite andb_true_l.
Qed.

Lemma single_line_join ts :
  Forall single_line ts -> single_line (join [SPACE] ts).
Proof.
  induction 1 as [|t ts Ht Hts IH]; [apply Forall_nil_2|].
  destruct ts as [|t' ts]; [done|].
  change (join [SPACE] (t :: t' :: ts)) with (t ++ [SPACE] ++ join [SPACE] (t' :: ts)).
  apply Forall_app. split; [done|]. apply Forall_cons_2; [done|exact IH].
Qed.

(** ** The attribute classifier, run on a state *)

Lemma get_element_id_run l st :
  get_element_id l st =
  match dict_get ID (attrs_of st l) with
  | Some (AStr v) =>
      if RE_COMPILED_match v then (Ok [], st)
      else (Ok (ustr "#" ++ v),
            State (<[l := dict_del ID (attrs_of st l)]> (store st)) (stream st))
  | Some (AList _) => (Raise TypeError, st)
  | None => (Ok [], st)
  end.
Proof.
  unfold get_element_id, bind, get_attrs, put_attrs, ret, raise.
  destruct (dict_get ID (attrs_of st l)) as [[v|ts]|]; try done.
  by destruct (RE_COMPILED_match v).
Qed.

Lemma get_element_class_run l st cls :
  dict_get CLASS (attrs_of st l) = Some (AList cls) ->
  get_element_class l st =
  match fold_jinja_tags cls with
  | Raise e => (Raise e, st)
  | Ok cls' =>
      (Ok (shorthand cls'),
       State (<[l := if existsb RE_COMPILED_match cls'
                     then dict_set CLASS
                            (AList (List.filter RE_COMPILED_match cls'))
                            (attrs_of st l)
                     else dict_del CLASS (attrs_of st l)]> (store st))
             (stream st))
  end.
Proof.
  intros Hc.
  unfold get_element_class, fold_jinja_tags_in_class, bind, get_attrs,
    put_attrs, ret, raise, lift.
  rewrite Hc. cbn beta iota. rewrite Hc.
  destruct (fold_jinja_tags cls) as [cls'|e]; [|done].
  cbn beta iota delta [store stream]. rewrite attrs_of_insert, dict_get_set_eq.
  destruct (existsb RE_COMPILED_match cls'); cbn beta iota delta [store stream];
    rewrite insert_insert_eq.
  - by rewrite dict_set_set.
  - by rewrite dict_del_set.
Qed.

Lemma get_element_class_absent l st :
  dict_get CLASS (attrs_of st l) = None -> get_element_class l st = (Ok [], st).
Proof.
  intros Hc. unfold get_element_class, bind, get_attrs, ret. by rewrite Hc.
Qed.

(** ** Folding keeps the tokens on one line *)

Lemma fold_pairs_Forall (P : ustring -> Prop) :
  (forall ts, Forall P ts -> P (join [SPACE] ts)) ->
  forall pos cls, Forall P cls -> Forall P (fold_pairs pos cls).
Proof.
  intros HP pos.
  enough ((forall cls, Forall P cls -> Forall P (fold_pairs pos cls)) /\
          (forall e cls, Forall P cls -> Forall P (fold_pairs (e :: pos) cls)))
    as [H _] by exact H.
  induction pos as [|b pos [IH1 IH2]]; [split; intros; done|].
  split; [apply IH2|].
  intros e cls Hcls. cbn [fold_pairs]. apply IH1.
  unfold del_slice, list_insert_at, slice.
  apply Forall_app. split.
  - apply Forall_take. apply Forall_app. split; [by apply Forall_take|].
    apply Forall_cons_2; [|by apply Forall_drop].
    apply HP. by apply Forall_take, Forall_drop.
  - apply Forall_drop. apply Forall_app. split; [by apply Forall_take|].
    apply Forall_cons_2; [|by apply Forall_drop].
    apply HP. by apply Forall_take, Forall_drop.
Qed.

Lemma fold_jinja_tags_single_line cls cls' :
  Forall single_line cls -> fold_jinja_tags cls = Ok cls' ->
  Forall single_line cls'.
Proof.
  intros H. unfold fold_jinja_tags.
  destruct (_ && _); [by intros [= <-]|].
  destruct (negb _); [done|]. intros [= <-].
  apply fold_pairs_Forall; [apply single_line_join | done].
Qed.

Lemma filter_ext_Forall {A} (f g : A -> bool) l :
  Forall (fun x => f x = g x) l -> List.filter f l = List.filter g l.
Proof.
  induction 1 as [|x l Hx _ IH]; simpl; [done|]. by rewrite Hx, IH.
Qed.

Lemma existsb_ext_Forall {A} (f g : A -> bool) l :
  Forall (fun x => f x = g x) l -> existsb f l = existsb g l.
Proof.
  induction 1 as [|x l Hx _ IH]; simpl; [done|]. by rewrite Hx, IH.
Qed.

(** C5: on an attribute map whose [class] is a list of tokens without line
    feed, once the templating fragments are folded, [get_element_class]
    returns the concatenation of ["." + token] over the non-empty tokens
    without reserved character, in order; the [class] entry becomes the
    list of the tokens with a reserved character when there is one, and is
    deleted otherwise.  Without a [class] key the result is the empty
    string and the state is unchanged. *)
Theorem get_element_class_shorthand l st :
  (dict_get CLASS (attrs_of st l) = None ->
   get_element_class l st = (Ok [], st)) /\
  (forall cls cls',
     dict_get CLASS (attrs_of st l) = Some (AList cls) ->
     Forall single_line cls ->
     fold_jinja_tags cls = Ok cls' ->
     get_element_class l st =
       (Ok (concat (List.map (app (ustr "."))
              (List.filter (fun t => truthy t && negb (has_reserved t)) cls'))),
        State (<[l := if existsb has_reserved cls'
                      then dict_set CLASS (AList (List.filter has_reserved cls'))
                             (attrs_of st l)
                      else dict_del CLASS (attrs_of st l)]> (store st))
              (stream st))).
Proof.
  split; [apply get_element_class_absent|].
  intros cls cls' Hc Hsl Hfold.
  rewrite (get_element_class_run l st cls Hc), Hfold.
  pose proof (fold_jinja_tags_single_line cls cls' Hsl Hfold) as Hsl'.
  assert (Forall (fun t => RE_COMPILED_match t = has_reserved t) cls') as Hre.
  { eapply Forall_impl; [exact Hsl'|]. apply RE_match_single_line. }
  rewrite (existsb_ext_Forall _ _ _ Hre), (filter_ext_Forall _ _ _ Hre).
  f_equal. f_equal. unfold shorthand. f_equal. f_equal.
  apply filter_ext_Forall. eapply Forall_impl; [exact Hre|].
  intros t Ht. unfold plain. rewrite Ht. f_equal.
  unfold len. destruct t; reflexivity.
Qed.

Lemma get_element_class_shorthand_witness :
  let d := [(CLASS, AList [ustr "foo"; ustr "foo#bar"; ustr "bar"; ustr "{{";
                           ustr "x"; ustr "}}"])] in
  let st := State {[ 0%nat := d ]} [] in
  get_element_class 0%nat st =
    (Ok (ustr ".foo.bar"),
     State (<[0%nat := [(CLASS, AList [ustr "foo#bar"; ustr "{{ x }}"])]]> (store st)) []).
Proof.
  intros d st.
  refine (proj2 (get_element_class_shorthand 0%nat st)
            [ustr "foo"; ustr "foo#bar"; ustr "bar"; ustr "{{"; ustr "x"; ustr "}}"]
            [ustr "foo"; ustr "foo#bar"; ustr "bar"; ustr "{{ x }}"] _ _ _);
    [ reflexivity
    | refine (@bool_decide_unpack _ _ _); vm_compute; exact I
    | reflexivity ].
Defined.

(** C4: an [id] whose value has a reserved character after a line feed
    is taken for the shorthand and removed from the map although the value
    contains [#]: the pattern is tried on the first line only. *)
Theorem get_element_id_reserved_after_line_feed :
  let v := ustr "a" ++ [LF] ++ ustr "#b" in
  let st := State {[ 0%nat := [(ID, AStr v)] ]} [] in
  has_reserved v = true /\
  fst (get_element_id 0%nat st) = Ok (ustr "#" ++ v) /\
  dict_get ID (attrs_of (snd (get_element_id 0%nat st)) 0%nat) = None.
Proof. repeat split; vm_compute; reflexivity. Qed.

(** On a value without line feed [get_element_id] does what C4 says. *)
Lemma get_element_id_single_line l st v :
  dict_get ID (attrs_of st l) = Some (AStr v) ->
  single_line v ->
  get_element_id l st =
    if has_reserved v then (Ok [], st)
    else (Ok (ustr "#" ++ v),
          State (<[l := dict_del ID (attrs_of st l)]> (store st)) (stream st)).
Proof.
  intros Hid Hv. rewrite get_element_id_run, Hid.
  by rewrite (RE_match_single_line v Hv).
Qed.

Lemma get_element_id_absent l st :
  dict_get ID (attrs_of st l) = None -> get_element_id l st = (Ok [], st).
Proof. intros Hid. by rewrite get_element_id_run, Hid. Qed.

(** ** Effects of the attribute classifier *)

Lemma touches_only_refl l st : touches_only l st st.
Proof. split; done. Qed.

Lemma touches_only_insert l st d :
  touches_only l st (State (<[l := d]> (store st)) (stream st)).
Proof. split; [done|]. intros l' Hl'. simpl. by rewrite lookup_insert_ne. Qed.

Lemma touches_only_trans l st1 st2 st3 :
  touches_only l st1 st2 -> touches_only l st2 st3 -> touches_only l st1 st3.
Proof.
  intros [H1 H2] [H3 H4]. split; [congruence|].
  intros l' Hl'. rewrite H4, H2; done.
Qed.

Lemma ID_neq_CLASS : ID <> CLASS.
Proof. discriminate. Qed.

Lemma shorthand_head cls :
  shorthand cls = [] \/ exists tl, shorthand cls = 46%N :: tl.
Proof.
  unfold shorthand. destruct (List.filter plain cls) as [|t ts]; [by left|].
  right. simpl. eexists. reflexivity.
Qed.

Lemma get_element_class_run_str l st s :
  dict_get CLASS (attrs_of st l) = Some (AStr s) ->
  get_element_class l st =
    (Ok (shorthand (List.map (fun ch => [ch]) s)),
     State (<[l := if existsb RE_COMPILED_match (List.map (fun ch => [ch]) s)
                   then dict_set CLASS
                          (AStr (concat (List.filter RE_COMPILED_match
                                           (List.map (fun ch => [ch]) s))))
                          (attrs_of st l)
                   else dict_del CLASS (attrs_of st l)]> (store st))
           (stream st)).
Proof.
  intros Hc.
  unfold get_element_class, fold_jinja_tags_in_class, bind, get_attrs,
    put_attrs, ret, raise, lift.
  repeat (rewrite Hc; cbn beta iota).
  by destruct (existsb RE_COMPILED_match _).
Qed.

(** What [get_element_id] does to the state and what it returns. *)
Lemma get_element_id_effect l st :
  exists r st1,
    get_element_id l st = (r, st1) /\
    touches_only l st st1 /\
    (attrs_of st1 l = attrs_of st l \/
     attrs_of st1 l = dict_del ID (attrs_of st l)) /\
    match r with
    | Ok t => t = [] \/ exists tl, t = 35%N :: tl
    | Raise e => e = TypeError /\ st1 = st /\
                 exists ts, dict_get ID (attrs_of st l) = Some (AList ts)
    end.
Proof.
  rewrite get_element_id_run.
  destruct (dict_get ID (attrs_of st l)) as [[v|ts]|] eqn:E.
  - destruct (RE_COMPILED_match v).
    + eexists _, _. split; [done|]. split; [apply touches_only_refl|].
      split; [by left | by left].
    + eexists _, _. split; [done|]. split; [apply touches_only_insert|].
      split; [right; apply attrs_of_insert|]. right. by eexists.
  - eexists _, _. split; [done|]. split; [apply touches_only_refl|].
    split; [by left|]. split; [done|]. split; [done|]. by eexists.
  - eexists _, _. split; [done|]. split; [apply touches_only_refl|].
    split; [by left | by left].
Qed.

(** What [get_element_class] does to the state and what it returns. *)
Lemma get_element_class_effect l st :
  exists r st2,
    get_element_class l st = (r, st2) /\
    touches_only l st st2 /\
    (attrs_of st2 l = attrs_of st l \/
     attrs_of st2 l = dict_del CLASS (attrs_of st l) \/
     (exists v, attrs_of st2 l = dict_set CLASS v (attrs_of st l)) /\
     class_reduced (attrs_of st l) (attrs_of st2 l)) /\
    match r with
    | Ok t => t = [] \/ exists tl, t = 46%N :: tl
    | Raise e => e = AssertionError /\ st2 = st
    end.
Proof.
  destruct (dict_get CLASS (attrs_of st l)) as [[s|cls]|] eqn:E.
  - rewrite (get_element_class_run_str l st s E).
    eexists _, _. split; [done|]. split; [apply touches_only_insert|].
    split; [|apply shorthand_head].
    rewrite attrs_of_insert. destruct (existsb _ _); [|by right; left].
    right. right. split; [by eexists|]. right. exists s. split; [done|].
    apply dict_get_set_eq.
  - rewrite (get_element_class_run l st cls E).
    destruct (fold_jinja_tags cls) as [cls'|e] eqn:Ef.
    + eexists _, _. split; [done|]. split; [apply touches_only_insert|].
      split; [|apply shorthand_head].
      rewrite attrs_of_insert. destruct (existsb _ _); [|by right; left].
      right. right. split; [by eexists|]. left. exists cls, cls'.
      split; [done|]. split; [done|]. apply dict_get_set_eq.
    + eexists _, _. split; [done|]. split; [apply touches_only_refl|].
      split; [by left|]. split; [|done].
      unfold fold_jinja_tags in Ef.
      destruct (_ && _); [done|]. destruct (negb _); congruence.
  - rewrite (get_element_class_absent l st E).
    eexists _, _. split; [done|]. split; [apply touches_only_refl|].
    split; [by left | by left].
Qed.

(** ** The tag line *)

Lemma adjacency_marks elem tag :
  adjacency elem tag =
  match adjacency elem [] with
  | Ok marks => Ok (tag ++ marks)
  | Raise e => Raise e
  end.
Proof.
  unfold adjacency. destruct (member (name elem) inline_names).
  - destruct (is_outer_nospace elem) as [[|]|e]; simpl;
      destruct (is_inner_nospace elem) as [[|]|e']; simpl;
      rewrite ?app_nil_r, <- ?app_assoc; done.
  - simpl. by rewrite app_nil_r.
Qed.

Lemma print_tag_style indent_str elem st :
  name elem = ustr "style" ->
  print_tag indent_str elem st =
    (Ok tt, State (store st) (stream st ++ indent_str ++ ustr ":css" ++ [LF])).
Proof.
  intros H. unfold print_tag, ustring_eqb. by rewrite bool_decide_true.
Qed.

(** [print_tag] on an element that is not [style], step by step. *)
Lemma print_tag_run indent_str elem st :
  name elem <> ustr "style" ->
  print_tag indent_str elem st =
  match get_element_id (attrs elem) st with
  | (Raise e, st1) => (Raise e, st1)
  | (Ok id_tag, st1) =>
      match get_element_class (attrs elem) st1 with
      | (Raise e, st2) => (Raise e, st2)
      | (Ok class_tag, st2) =>
          match adjacency elem [] with
          | Raise e => (Raise e, st2)
          | Ok marks =>
              (Ok tt,
               State (store st2)
                 (stream st2 ++ indent_str
                    ++ (tag_head (name elem) (id_tag ++ class_tag)
                          ++ attr_str (attrs_of st2 (attrs elem)) ++ marks)
                    ++ [LF]))
          end
      end
  end.
Proof.
  intros H. unfold print_tag, ustring_eqb. rewrite bool_decide_false by done.
  unfold bind at 1. destruct (get_element_id (attrs elem) st) as [[id_tag|e] st1]; [|done].
  unfold bind at 1.
  destruct (get_element_class (attrs elem) st1) as [[class_tag|e] st2]; [|done].
  unfold bind, get_attrs, lift, write. rewrite adjacency_marks.
  destruct (adjacency elem []) as [marks|e]; [|done].
  by rewrite <- !app_assoc.
Qed.

Lemma tag_head_cases name tag :
  (name = ustr "div" /\ tag <> [] -> tag_head name tag = tag) /\
  (~ (name = ustr "div" /\ tag <> []) -> tag_head name tag = ustr "%" ++ name ++ tag).
Proof.
  unfold tag_head, ustring_eqb. split.
  - intros [-> Ht]. rewrite bool_decide_true by done. by rewrite bool_decide_false.
  - intros H. case_bool_decide as Hn; [|done].
    case_bool_decide as Ht; [subst tag; by rewrite app_nil_r|].
    exfalso. by apply H.
Qed.

(** C6: when [print_tag] renders an element that is not [style], the line
    it writes, after the indent, is the id/class shorthand alone exactly
    when the name is [div] and the shorthand is not empty (the shorthand
    then starts with [#] or [.]); in every other case it is [%], the name
    and the shorthand; the attribute map and the adjacency markers follow. *)
Theorem print_tag_name_omission indent_str elem st id_tag class_tag st1 st2 marks :
  name elem <> ustr "style" ->
  get_element_id (attrs elem) st = (Ok id_tag, st1) ->
  get_element_class (attrs elem) st1 = (Ok class_tag, st2) ->
  adjacency elem [] = Ok marks ->
  let suffix := id_tag ++ class_tag in
  let rest := attr_str (attrs_of st2 (attrs elem)) ++ marks ++ [LF] in
  exists st3,
    print_tag indent_str elem st = (Ok tt, st3) /\
    (name elem = ustr "div" /\ suffix <> [] ->
       stream st3 = stream st ++ indent_str ++ suffix ++ rest /\
       exists c tl, suffix = c :: tl /\ (c = 35%N \/ c = 46%N)) /\
    (~ (name elem = ustr "div" /\ suffix <> []) ->
       stream st3 =
         stream st ++ indent_str ++ ustr "%" ++ name elem ++ suffix ++ rest).
Proof.
  intros Hn Hid Hcl Hadj. cbv zeta.
  rewrite (print_tag_run indent_str elem st Hn), Hid, Hcl, Hadj.
  eexists. split; [reflexivity|]. cbn [stream].
  destruct (get_element_id_effect (attrs elem) st) as (r & s1 & E1 & [Hs1 _] & _ & Hr1).
  rewrite Hid in E1. injection E1 as <- <-.
  destruct (get_element_class_effect (attrs elem) st1) as (r & s2 & E2 & [Hs2 _] & _ & Hr2).
  rewrite Hcl in E2. injection E2 as <- <-.
  rewrite Hs2, Hs1.
  destruct (tag_head_cases (name elem) (id_tag ++ class_tag)) as [Hd Ho].
  split.
  - intros Hdiv. rewrite (Hd Hdiv). split.
    + by rewrite <- !app_assoc.
    + destruct Hdiv as [_ Hne].
      destruct Hr1 as [->|[tl ->]].
      * destruct Hr2 as [->|[tl ->]]; [done|]. simpl. eauto.
      * simpl. eauto.
  - intros Hnot. rewrite (Ho Hnot). by rewrite <- !app_assoc.
Qed.

Lemma print_tag_name_omission_witness :
  exists st3,
    print_tag [] (Element (ustr "div") 0 [] None None)
      (State {[ 0%nat := [(ID, AStr (ustr "foo"))] ]} []) = (Ok tt, st3) /\
    stream st3 = ustr "#foo" ++ [LF].
Proof.
  destruct (print_tag_name_omission [] (Element (ustr "div") 0 [] None None)
              (State {[ 0%nat := [(ID, AStr (ustr "foo"))] ]} [])
              (ustr "#foo") [] (State {[ 0%nat := [] ]} [])
              (State {[ 0%nat := [] ]} []) [])
    as (st3 & Hrun & Hdiv & _);
    [discriminate | reflexivity | reflexivity | reflexivity |].
  exists st3. split; [exact Hrun|].
  destruct Hdiv as [Hs _]; [split; [reflexivity | discriminate]|].
  exact Hs.
Defined.

(** ** Unbalanced templating markers *)

Lemma marker_positions_length i cls :
  length (marker_positions i cls) = marker_count cls.
Proof.
  unfold marker_count. revert i. induction cls as [|t cls IH]; intros i; [done|].
  cbn [marker_positions List.filter].
  destruct (member t markers); cbn [length]; by rewrite IH.
Qed.

Lemma fold_jinja_tags_odd cls :
  member (ustr "{%") cls || member (ustr "{{") cls = true ->
  Nat.odd (marker_count cls) = true ->
  fold_jinja_tags cls = Raise AssertionError.
Proof.
  intros Hopen Hodd. unfold fold_jinja_tags.
  apply orb_true_iff in Hopen.
  assert (negb (member (ustr "{%") cls) && negb (member (ustr "{{") cls) = false) as ->.
  { destruct Hopen as [-> | ->]; [done|]. by rewrite andb_false_r. }
  rewrite marker_positions_length.
  apply Nat.odd_spec in Hodd as [k Hk]. rewrite Hk.
  replace (2 * k + 1)%nat with (1 + k * 2)%nat by lia.
  by rewrite Nat.Div0.mod_add.
Qed.

Lemma dict_get_class_after_id l st r st1 :
  get_element_id l st = (r, st1) ->
  dict_get CLASS (attrs_of st1 l) = dict_get CLASS (attrs_of st l).
Proof.
  intros H.
  destruct (get_element_id_effect l st) as (r' & s1 & E & _ & Hd & _).
  rewrite H in E. injection E as <- <-.
  destruct Hd as [-> | ->]; [done|].
  apply dict_get_del_ne. intros Heq. by apply ID_neq_CLASS.
Qed.

(** C3, as amended: when the [class] token list of an element that is not
    [style] contains an opening marker and an odd number of markers,
    rendering the element raises an error and writes nothing; the error is
    the failed assertion unless the [id] value was rejected first. *)
Theorem print_tag_odd_markers_abort indent_str elem st cls :
  name elem <> ustr "style" ->
  dict_get CLASS (attrs_of st (attrs elem)) = Some (AList cls) ->
  member (ustr "{%") cls || member (ustr "{{") cls = true ->
  Nat.odd (marker_count cls) = true ->
  exists e st',
    print_tag indent_str elem st = (Raise e, st') /\
    stream st' = stream st /\
    ((forall ts, dict_get ID (attrs_of st (attrs elem)) <> Some (AList ts)) ->
     e = AssertionError).
Proof.
  intros Hn Hc Hopen Hodd. rewrite (print_tag_run indent_str elem st Hn).
  destruct (get_element_id_effect (attrs elem) st)
    as (r & st1 & E1 & [Hs1 _] & _ & Hr1).
  pose proof (dict_get_class_after_id _ _ _ _ E1) as Hc1. rewrite Hc in Hc1.
  rewrite E1. destruct r as [id_tag|e].
  - rewrite (get_element_class_run _ st1 cls Hc1).
    rewrite (fold_jinja_tags_odd cls Hopen Hodd).
    exists AssertionError, st1. done.
  - destruct Hr1 as (-> & -> & ts & Hts).
    exists TypeError, st. split; [done|]. split; [done|].
    intros H. by destruct (H ts).
Qed.

Lemma print_tag_odd_markers_abort_witness :
  exists e st',
    print_tag [] (Element (ustr "tr") 0 [] None None)
      (State {[ 0%nat := [(CLASS, AList [ustr "{%"; ustr "cycle"])] ]} [])
    = (Raise e, st') /\ stream st' = [].
Proof.
  destruct (print_tag_odd_markers_abort []
              (Element (ustr "tr") 0 [] None None)
              (State {[ 0%nat := [(CLASS, AList [ustr "{%"; ustr "cycle"])] ]} [])
              [ustr "{%"; ustr "cycle"])
    as (e & st' & Hrun & Hstream & _);
    [discriminate | reflexivity | reflexivity | reflexivity |].
  exists e, st'. split; [exact Hrun | exact Hstream].
Defined.

(** C3, counterexample: a lone closing marker is an odd number of markers,
    and the element is rendered with the marker as a class. *)
Lemma unmatched_closer_is_rendered :
  let st := State {[ 0%nat := [(CLASS, AList [ustr "%}"])] ]} [] in
  let elem := Element (ustr "div") 0 [] None None in
  Nat.odd (marker_count [ustr "%}"]) = true /\
  fst (print_tag [] elem st) = Ok tt /\
  stream (snd (print_tag [] elem st)) = ustr ".%}" ++ [LF].
Proof. repeat split; vm_compute; reflexivity. Qed.

(** ** The frame of a render *)

Lemma attrs_frame_refl d : attrs_frame d d.
Proof. split; [done|]. split; by left. Qed.

Lemma attrs_frame_id d : attrs_frame d (dict_del ID d).
Proof.
  split; [|split].
  - intros k Hid _. by apply dict_get_del_ne.
  - right. apply dict_get_del_eq.
  - left. apply dict_get_del_ne. intros H. by apply ID_neq_CLASS.
Qed.

Lemma class_reduced_id d d' :
  class_reduced (dict_del ID d) d' -> class_reduced d d'.
Proof.
  assert (dict_get CLASS (dict_del ID d) = dict_get CLASS d) as E.
  { apply dict_get_del_ne. intros H. by apply ID_neq_CLASS. }
  unfold class_reduced. rewrite E. done.
Qed.

(** The frame of the class step, after the id step. *)
Lemma attrs_frame_class d d1 d2 :
  d1 = d \/ d1 = dict_del ID d ->
  d2 = d1 \/ d2 = dict_del CLASS d1 \/
    (exists v, d2 = dict_set CLASS v d1) /\ class_reduced d1 d2 ->
  attrs_frame d d2.
Proof.
  intros H1 H2.
  assert (attrs_frame d d1) as (F1 & F2 & F3).
  { destruct H1 as [-> | ->]; [apply attrs_frame_refl | apply attrs_frame_id]. }
  assert (class_reduced d1 d2 -> class_reduced d d2) as Hred.
  { destruct H1 as [-> | ->]; [done | apply class_reduced_id]. }
  assert (dict_get CLASS d1 = dict_get CLASS d) as Hc1.
  { destruct H1 as [-> | ->]; [done|].
    apply dict_get_del_ne. intros H. by apply ID_neq_CLASS. }
  destruct H2 as [-> | [-> | [[v ->] Hcr]]].
  - split; [done|]. split; [done | by left].
  - split; [|split].
    + intros k Hid Hcl. rewrite dict_get_del_ne by done. by apply F1.
    + rewrite dict_get_del_ne by apply ID_neq_CLASS. exact F2.
    + right. left. apply dict_get_del_eq.
  - split; [|split].
    + intros k Hid Hcl. rewrite dict_get_set_ne by done. by apply F1.
    + rewrite dict_get_set_ne by apply ID_neq_CLASS. exact F2.
    + right. right. by apply Hred.
Qed.

(** C9, as amended: rendering an element changes nothing of the store but
    the [id] and [class] entries of that element's own attribute map: [id]
    is removed or kept, [class] is removed, kept, or replaced by those of
    its tokens (after folding) that the reserved-character pattern matches;
    every other key of the map keeps its value and the attribute map of
    every other element is as it was.  This holds whether the render ends
    with a line or with an error. *)
Theorem print_tag_frame indent_str elem st :
  (forall l', l' <> attrs elem ->
     store (snd (print_tag indent_str elem st)) !! l' = store st !! l') /\
  attrs_frame (attrs_of st (attrs elem))
              (attrs_of (snd (print_tag indent_str elem st)) (attrs elem)).
Proof.
  destruct (decide (name elem = ustr "style")) as [Hn|Hn].
  { rewrite (print_tag_style indent_str elem st Hn). simpl.
    split; [done | apply attrs_frame_refl]. }
  rewrite (print_tag_run indent_str elem st Hn).
  destruct (get_element_id_effect (attrs elem) st)
    as (r1 & st1 & E1 & [_ T1] & D1 & _).
  rewrite E1.
  assert (attrs_frame (attrs_of st (attrs elem)) (attrs_of st1 (attrs elem))) as F1.
  { apply (attrs_frame_class _ _ _ D1). by left. }
  destruct r1 as [id_tag|e]; [|by split].
  destruct (get_element_class_effect (attrs elem) st1)
    as (r2 & st2 & E2 & [_ T2] & D2 & _).
  rewrite E2.
  assert (attrs_frame (attrs_of st (attrs elem)) (attrs_of st2 (attrs elem))) as F2.
  { by apply (attrs_frame_class _ _ _ D1). }
  assert (forall l', l' <> attrs elem -> store st2 !! l' = store st !! l') as T.
  { intros l' Hl'. rewrite T2, T1; done. }
  destruct r2 as [class_tag|e]; [|by split].
  destruct (adjacency elem []) as [marks|e]; by split.
Qed.

Lemma print_tag_frame_witness :
  let st := State {[ 0%nat := [(CLASS, AList [ustr "a"]); (ustr "href", AStr (ustr "x"))];
                     1%nat := [(ID, AStr (ustr "b"))] ]} [] in
  let st' := snd (print_tag [] (Element (ustr "p") 0 [] None None) st) in
  store st' !! 1%nat = store st !! 1%nat /\
  dict_get (ustr "href") (attrs_of st' 0%nat) = dict_get (ustr "href") (attrs_of st 0%nat).
Proof.
  intros st st'.
  destruct (print_tag_frame [] (Element (ustr "p") 0 [] None None) st)
    as [Hother (Hkeys & _)].
  split.
  - apply Hother. discriminate.
  - apply Hkeys; discriminate.
Defined.

(** C9, counterexample: the [class] entry stays in the map with another
    value, which is neither an unchanged entry nor a removed one. *)
Lemma class_entry_is_rewritten :
  let d := [(CLASS, AList [ustr "foo"; ustr "foo#bar"])] in
  let st := State {[ 0%nat := d ]} [] in
  let st' := snd (print_tag [] (Element (ustr "div") 0 [] None None) st) in
  ~ (forall k,
       dict_get k (attrs_of st' 0%nat) = dict_get k d \/
       ((k = ID \/ k = CLASS) /\ dict_get k (attrs_of st' 0%nat) = None)).
Proof.
  intros d st st' H. destruct (H CLASS) as [E | [_ E]];
    vm_compute in E; discriminate E.
Qed.

(** ** Inline elements without siblings *)

(** C10: a side without sibling counts as free of whitespace, and an inline
    element that is the only child of its parent is written with the [>]
    marker right after its attributes, whenever its attributes and its own
    children can be rendered. *)
Theorem only_child_inline_outer_marker
    indent_str elem st id_tag class_tag st1 st2 inner :
  member (name elem) inline_names = true ->
  previous_sibling elem = None ->
  next_sibling elem = None ->
  get_element_id (attrs elem) st = (Ok id_tag, st1) ->
  get_element_class (attrs elem) st1 = (Ok class_tag, st2) ->
  is_inner_nospace elem = Ok inner ->
  nospace_before None = Ok true /\
  nospace_after None = Ok true /\
  is_outer_nospace elem = Ok true /\
  print_tag indent_str elem st =
    (Ok tt,
     State (store st2)
       (stream st ++ indent_str
          ++ tag_head (name elem) (id_tag ++ class_tag)
          ++ attr_str (attrs_of st2 (attrs elem))
          ++ ustr ">" ++ (if inner then ustr "<" else []) ++ [LF])).
Proof.
  intros Hin Hprev Hnext Hid Hcl Hinner.
  assert (is_outer_nospace elem = Ok true) as Hout.
  { unfold is_outer_nospace. by rewrite Hprev, Hnext. }
  split; [reflexivity|]. split; [reflexivity|]. split; [exact Hout|].
  assert (name elem <> ustr "style") as Hn.
  { intros E. rewrite E in Hin. discriminate Hin. }
  rewrite (print_tag_run indent_str elem st Hn), Hid, Hcl.
  unfold adjacency. rewrite Hin, Hout, Hinner. cbn [result_bind].
  destruct (get_element_id_effect (attrs elem) st) as (r & s1 & E1 & [Hs1 _] & _).
  rewrite Hid in E1. injection E1 as <- <-.
  destruct (get_element_class_effect (attrs elem) st1) as (r & s2 & E2 & [Hs2 _] & _).
  rewrite Hcl in E2. injection E2 as <- <-.
  rewrite Hs2, Hs1. f_equal. f_equal. f_equal. f_equal.
  rewrite <- !app_assoc. f_equal. f_equal. by destruct inner.
Qed.

Lemma only_child_inline_outer_marker_witness :
  print_tag (spaces 2)
    (Element (ustr "span") 0 [NavigableString (ustr "x ")] None None)
    (State {[ 0%nat := [(CLASS, AList [ustr "k"])] ]} [])
  = (Ok tt, State {[ 0%nat := [] ]} (ustr "  %span.k>" ++ [LF])).
Proof.
  refine (proj2 (proj2 (proj2 (only_child_inline_outer_marker (spaces 2)
    (Element (ustr "span") 0 [NavigableString (ustr "x ")] None None)
    (State {[ 0%nat := [(CLASS, AList [ustr "k"])] ]} [])
    [] (ustr ".k") (State {[ 0%nat := [(CLASS, AList [ustr "k"])] ]} [])
    (State {[ 0%nat := [] ]} []) false _ _ _ _ _ _))));
    reflexivity.
Defined.

(** ** The cases of the test suite and of the docstrings *)

Example test_no_tag_name_for_div_if_id_is_present :
  rendered {[ 0%nat := [(ID, AStr (ustr "foo"))] ]}
    (Tag (ustr "div") 0 [NavigableString (ustr " ")])
  = (Ok tt, ustr "#foo" ++ [LF]).
Proof. vm_compute. reflexivity. Qed.

Example test_multiple_class_names :
  rendered {[ 0%nat := [(CLASS, AList [[]; ustr "foo"; ustr "bar"; ustr "baz"; []])] ]}
    (Tag (ustr "div") 0 [])
  = (Ok tt, ustr ".foo.bar.baz" ++ [LF]).
Proof. vm_compute. reflexivity. Qed.

Example test_should_have_pretty_attributes :
  rendered {[ 0%nat := [(ustr "type", AStr (ustr "text"));
                        (ustr "name", AStr (ustr "login"))] ]}
    (Tag (ustr "input") 0 [])
  = (Ok tt, ustr "%input{type:" ++ quoted (ustr "text")
            ++ ustr ",name:" ++ quoted (ustr "login") ++ ustr "}" ++ [LF]).
Proof. vm_compute. reflexivity. Qed.

Example test_id_with_dot :
  rendered {[ 0%nat := [(ID, AStr (ustr "foo.bar"))] ]} (Tag (ustr "div") 0 [])
  = (Ok tt, ustr "%div{id:" ++ quoted (ustr "foo.bar") ++ ustr "}" ++ [LF]).
Proof. vm_compute. reflexivity. Qed.

Example test_class_with_dot_and_hash :
  rendered {[ 0%nat := [(CLASS, AList [ustr "foo"; ustr "foo#bar"; ustr "bar";
                                       ustr "foo.bar"])] ]}
    (Tag (ustr "div") 0 [])
  = (Ok tt, ustr ".foo.bar{class:" ++ quoted (ustr "foo#bar foo.bar")
            ++ ustr "}" ++ [LF]).
Proof. vm_compute. reflexivity. Qed.

Example test_self_closing_tag :
  rendered ∅ (Tag (ustr "img") 0 []) = (Ok tt, ustr "%img" ++ [LF]).
Proof. vm_compute. reflexivity. Qed.

Example test_inline_text :
  rendered ∅ (Tag (ustr "p") 0 [NavigableString (ustr "foo")])
  = (Ok tt, ustr "%p" ++ [LF] ++ ustr "  foo" ++ [LF]).
Proof. vm_compute. reflexivity. Qed.

Example test_id_and_class :
  rendered {[ 0%nat := [(CLASS, AList [ustr "cls1"; ustr "cl.s2"; ustr "c#ls3"]);
                        (ID, AStr (ustr ".id"))] ]}
    (Tag (ustr "div") 0 [])
  = (Ok tt, ustr ".cls1{class:" ++ quoted (ustr "cl.s2 c#ls3")
            ++ ustr ",id:" ++ quoted (ustr ".id") ++ ustr "}" ++ [LF]).
Proof. vm_compute. reflexivity. Qed.

Example fold_jinja_tags_docstring :
  fold_jinja_tags [ustr "{%"; ustr "cycle"; ustr "'odd'"; ustr "'even'"; ustr "%}"]
  = Ok [ustr "{% cycle 'odd' 'even' %}"].
Proof. vm_compute. reflexivity. Qed.

Example inline_siblings :
  rendered ∅
    (Tag (ustr "p") 0
       [NavigableString (ustr "see "); Tag (ustr "a") 1 [NavigableString (ustr "this")];
        NavigableString (ustr ", then")])
  = (Ok tt, ustr "%p" ++ [LF] ++ ustr "  see" ++ [LF] ++ ustr "  %a<" ++ [LF]
            ++ ustr "    this" ++ [LF] ++ ustr "  , then" ++ [LF]).
Proof. vm_compute. reflexivity. Qed.

(** * Further properties *)

(** ** The reserved first character *)

Lemma first_non_space_spaces n c rest i :
  c <> SPACE ->
  first_non_space (replicate n SPACE ++ c :: rest) i = Some (i + n)%nat.
Proof.
  intros Hc. revert i. induction n as [|n IH]; intros i; simpl.
  - destruct (N.eqb_spec c SPACE); [done|]. f_equal. lia.
  - rewrite IH. f_equal. lia.
Qed.

Lemma first_non_space_all n i : first_non_space (replicate n SPACE) i = None.
Proof. revert i. induction n as [|n IH]; intros i; simpl; [done|apply IH]. Qed.

(** One round of the loop over the pairs, on a text split at [i_first]. *)
Lemma replace_step (pre : ustring) c rest char entity :
  (if bool_decide ((pre ++ c :: rest) !! length pre = Some char)
   then take (length pre) (pre ++ c :: rest) ++ entity
          ++ drop (S (length pre)) (pre ++ c :: rest)
   else pre ++ c :: rest) =
  if bool_decide (c = char) then pre ++ entity ++ rest else pre ++ c :: rest.
Proof.
  rewrite list_lookup_middle by done.
  case_bool_decide as H1; case_bool_decide as H2; try congruence.
  rewrite take_app_length. f_equal. f_equal.
  replace (S (length pre)) with (length pre + 1)%nat by lia.
  rewrite <- drop_drop, drop_app_length. done.
Qed.

Lemma replace_pairs (pre : ustring) i c rest :
  i = length pre ->
  fold_left
    (fun text '(char, entity) =>
       if bool_decide (text !! i = Some char)
       then take i text ++ entity ++ drop (S i) text
       else text)
    pairs (pre ++ c :: rest) =
  pre ++ escape_first c ++ rest.
Proof.
  intros ->. unfold pairs. cbn [fold_left]. unfold escape_first.
  rewrite (replace_step pre c rest).
  destruct (N.eqb_spec c 45) as [->|H45].
  { rewrite (bool_decide_true (45%N = 45%N)) by done.
    change (pre ++ ustr "&minus;" ++ rest)
      with (pre ++ 38%N :: (ustr "minus;" ++ rest)).
    rewrite replace_step, (bool_decide_false (38%N = 37%N)) by discriminate.
    rewrite replace_step, (bool_decide_false (38%N = 35%N)) by discriminate.
    done. }
  rewrite (bool_decide_false (c = 45%N)) by done.
  rewrite (replace_step pre c rest).
  destruct (N.eqb_spec c 37) as [->|H37].
  { rewrite (bool_decide_true (37%N = 37%N)) by done.
    change (pre ++ ustr "&#37;" ++ rest)
      with (pre ++ 38%N :: (ustr "#37;" ++ rest)).
    rewrite replace_step, (bool_decide_false (38%N = 35%N)) by discriminate.
    done. }
  rewrite (bool_decide_false (c = 37%N)) by done.
  rewrite (replace_step pre c rest).
  destruct (N.eqb_spec c 35) as [->|H35].
  - by rewrite bool_decide_true.
  - by rewrite bool_decide_false.
Qed.

(** X1: a text whose first character other than a space is [c] keeps its
    leading spaces and the rest of the text; [c] itself becomes [&minus;]
    when it is [-], [&#37;] when it is [%], [%#35] when it is [#], and
    stays otherwise.  The three replacements never act on one another. *)
Theorem replace_reserved_first_char_spec n c rest :
  c <> SPACE ->
  replace_reserved_first_char (replicate n SPACE ++ c :: rest) =
  replicate n SPACE ++ escape_first c ++ rest.
Proof.
  intros Hc. unfold replace_reserved_first_char.
  rewrite first_non_space_spaces by done. simpl Nat.add.
  apply replace_pairs. by rewrite length_replicate.
Qed.

Lemma replace_reserved_first_char_spec_witness :
  replace_reserved_first_char (replicate 2 SPACE ++ 35%N :: ustr "a") =
  replicate 2 SPACE ++ escape_first 35 ++ ustr "a".
Proof. apply replace_reserved_first_char_spec. discriminate. Defined.

Lemma replace_reserved_first_char_spaces n :
  replace_reserved_first_char (replicate n SPACE) = replicate n SPACE.
Proof. unfold replace_reserved_first_char. by rewrite first_non_space_all. Qed.

(** Every text is a run of spaces, alone or followed by another character. *)
Lemma leading_spaces (text : ustring) :
  (exists n, text = replicate n SPACE) \/
  (exists n c rest, c <> SPACE /\ text = replicate n SPACE ++ c :: rest).
Proof.
  induction text as [|a text IH].
  - left. by exists 0%nat.
  - destruct (decide (a = SPACE)) as [->|Ha].
    + destruct IH as [[n ->]|(n & c & rest & Hc & ->)].
      * left. by exists (S n).
      * right. by exists (S n), c, rest.
    + right. by exists 0%nat, a, text.
Qed.

(** X2: after the replacement the first character of a text that is not a
    space is never [-] and never [#]. *)
Theorem replace_reserved_first_char_never_dash_or_hash text n c rest :
  replace_reserved_first_char text = replicate n SPACE ++ c :: rest ->
  c <> SPACE ->
  c <> 45%N /\ c <> 35%N.
Proof.
  intros Heq Hc.
  destruct (leading_spaces text) as [[m ->]|(m & c0 & rest0 & Hc0 & ->)].
  - rewrite replace_reserved_first_char_spaces in Heq.
    apply (f_equal (fun l => l !! n)) in Heq.
    rewrite list_lookup_middle in Heq by (by rewrite length_replicate).
    apply lookup_replicate in Heq as [Heq _]. congruence.
  - unfold replace_reserved_first_char in Heq.
    rewrite first_non_space_spaces in Heq by done. simpl Nat.add in Heq.
    rewrite replace_pairs in Heq by (by rewrite length_replicate).
    assert (exists c1 tl, escape_first c0 = c1 :: tl /\ c1 <> SPACE /\
                          c1 <> 45%N /\ c1 <> 35%N) as (c1 & tl & He & Hs & Hd).
    { unfold escape_first.
      destruct (N.eqb_spec c0 45); [by eexists _, _|].
      destruct (N.eqb_spec c0 37); [by eexists _, _|].
      destruct (N.eqb_spec c0 35); [by eexists _, _|].
      by eexists _, _. }
    rewrite He in Heq. simpl in Heq.
    destruct (decide (m = n)) as [->|Hmn].
    + apply app_inv_head in Heq. by injection Heq as -> _.
    + exfalso. destruct (decide (m < n)%nat).
      * apply (f_equal (fun l => l !! m)) in Heq.
        rewrite list_lookup_middle in Heq by (by rewrite length_replicate).
        rewrite lookup_app_l in Heq by (rewrite length_replicate; lia).
        symmetry in Heq. apply lookup_replicate in Heq as [Heq _]. congruence.
      * apply (f_equal (fun l => l !! n)) in Heq.
        rewrite (list_lookup_middle _ _ c) in Heq by (by rewrite length_replicate).
        rewrite lookup_app_l in Heq by (rewrite length_replicate; lia).
        apply lookup_replicate in Heq as [Heq _]. congruence.
Qed.

Lemma replace_reserved_first_char_never_dash_or_hash_witness :
  37%N <> 45%N /\ 37%N <> 35%N.
Proof.
  apply (replace_reserved_first_char_never_dash_or_hash
           (ustr " #x") 1 37%N (ustr "#35x")); [reflexivity | discriminate].
Defined.

(** ** The words of a wrapped text *)

Lemma split_acc_sep word a c b :
  is_space c = true ->
  split_acc word (a ++ c :: b) = split_acc word a ++ split b.
Proof.
  intros Hc. revert word. induction a as [|x a IH]; intros word.
  - cbn [app split_acc]. rewrite Hc. by destruct (truthy word).
  - cbn [app split_acc]. destruct (is_space x).
    + destruct (truthy word); cbn [app]; by rewrite IH.
    + apply IH.
Qed.

Lemma split_sep a c b :
  is_space c = true -> split (a ++ c :: b) = split a ++ split b.
Proof. apply split_acc_sep. Qed.

Lemma split_word w : is_word w -> split w = [w].
Proof.
  intros [Hne Hw]. unfold split.
  pose proof (split_acc_word [] w [] Hw) as E. rewrite app_nil_r in E.
  rewrite E. simpl. by destruct w.
Qed.

Lemma split_only_spaces n : split (spaces n) = [].
Proof.
  pose proof (split_spaces n []) as E. by rewrite app_nil_r in E.
Qed.

Lemma wrap_trace_words fw words pl :
  Forall is_word words ->
  concat (List.map split (fst (wrap_trace fw words pl)))
    ++ split (snd (wrap_trace fw words pl)) =
  split pl ++ words.
Proof.
  intros Hw. revert pl. induction Hw as [|w words Hword _ IH]; intros pl.
  - simpl. by rewrite app_nil_r.
  - cbn [wrap_trace].
    assert (split (if truthy pl then pl ++ [SPACE] ++ w else w) = split pl ++ [w])
      as Hadd.
    { destruct pl as [|a pl]; cbn [truthy]; [by apply split_word|].
      change ((a :: pl) ++ [SPACE] ++ w) with ((a :: pl) ++ SPACE :: w).
      rewrite (split_sep (a :: pl) SPACE w) by reflexivity.
      rewrite (split_word w Hword). reflexivity. }
    destruct (len _ <? fw).
    + rewrite IH, Hadd. by rewrite <- app_assoc.
    + specialize (IH w). destruct (wrap_trace fw words w) as [em fin].
      cbn [fst snd List.map concat] in *. rewrite <- app_assoc, IH.
      rewrite (split_word w Hword). reflexivity.
Qed.

Lemma print_lines_words fw line :
  concat (List.map split (print_lines fw line)) = split line.
Proof.
  pose proof (wrap_trace_words fw (split line) (spaces (line_indent line))
                (split_words line)) as H.
  unfold print_lines. rewrite split_only_spaces in H. cbn [app] in H.
  destruct (wrap_trace fw (split line) (spaces (line_indent line))) as [em fin].
  cbn [fst snd] in H. destruct fin as [|a fin]; cbn [truthy].
  - by rewrite app_nil_r in H.
  - rewrite map_app, concat_app. cbn [List.map concat]. by rewrite app_nil_r.
Qed.

Lemma split_emit_lines indent ls :
  split (emit_lines indent ls) = concat (List.map split ls).
Proof.
  unfold emit_lines. induction ls as [|l ls IH]; [done|].
  cbn [List.map concat]. rewrite <- !app_assoc. rewrite split_spaces.
  cbn [app]. rewrite split_sep by done. by rewrite IH.
Qed.

Lemma split_splitlines_acc b line s :
  (b = true -> line = []) ->
  concat (List.map split (splitlines_acc b line s)) = split (line ++ s).
Proof.
  revert b line. induction s as [|c s IH]; intros b line Hb.
  - cbn [splitlines_acc]. rewrite app_nil_r.
    destruct line; cbn [truthy List.map concat]; [done|by rewrite app_nil_r].
  - cbn [splitlines_acc].
    destruct (b && (c =? LF)%N) eqn:E.
    + apply andb_true_iff in E as [-> E]. rewrite (Hb eq_refl).
      apply N.eqb_eq in E. subst c. rewrite IH by done. reflexivity.
    + destruct (is_linebreak c) eqn:El.
      * cbn [List.map concat]. rewrite IH by done.
        rewrite split_sep by (by apply linebreak_is_space). done.
      * rewrite IH by done. by rewrite <- app_assoc.
Qed.

Lemma split_splitlines s : concat (List.map split (splitlines s)) = split s.
Proof. apply (split_splitlines_acc false [] s). done. Qed.

Lemma concat_map_concat {A B} (f : A -> list B) (ls : list (list A)) :
  concat (List.map f (concat ls)) =
  concat (List.map (fun l => concat (List.map f l)) ls).
Proof.
  induction ls as [|l ls IH]; [done|].
  cbn [concat List.map]. by rewrite map_app, concat_app, IH.
Qed.

(** The words of the print lines of some lines are the words of the lines. *)
Lemma split_emit_print_lines indent fw lines :
  split (emit_lines indent (concat (List.map (print_lines fw) lines))) =
  concat (List.map split lines).
Proof.
  rewrite split_emit_lines, concat_map_concat, List.map_map.
  f_equal. apply List.map_ext. intros line. apply print_lines_words.
Qed.

(** X3: wrapping keeps the words of the text: the words of the output, in
    order, are the words of the input, whatever the indent and the width. *)
Theorem indented_string_words indent text fw :
  split (indented_string indent text fw) = split text.
Proof.
  rewrite indented_string_print_lines, split_emit_print_lines.
  apply split_splitlines.
Qed.

(** ** The lines of a wrapped text *)

Lemma len_spaces n : len (spaces n) = Z.max 0 n.
Proof. unfold len, spaces. rewrite length_replicate. lia. Qed.

(** X4: every physical line of the output starts with the nesting indent,
    and the output is exactly its physical lines, each ended by one line
    feed. *)
Theorem indented_string_lines indent text fw :
  Forall (fun pl => exists tail, pl = spaces indent ++ tail)
         (physical_lines (indented_string indent text fw)) /\
  indented_string indent text fw =
    concat (List.map (fun pl => pl ++ [LF])
              (physical_lines (indented_string indent text fw))).
Proof.
  rewrite indented_string_print_lines.
  set (E := concat (List.map (print_lines fw) (splitlines text))).
  assert (Forall no_linebreak E) as HE.
  { unfold E. induction (splitlines text) as [|l ls IH]; [apply Forall_nil_2|].
    cbn [List.map concat]. apply Forall_app.
    split; [apply print_lines_no_linebreak | done]. }
  rewrite (physical_lines_emit indent E HE). split.
  - apply Forall_forall. intros pl Hpl.
    apply list_elem_of_In, in_map_iff in Hpl as (l & <- & _). by exists l.
  - unfold emit_lines. rewrite List.map_map. f_equal.
    apply List.map_ext. intros l. by rewrite <- app_assoc.
Qed.

Lemma wrap_trace_bound fw words pl :
  Forall (fun w => len w < fw) words -> len pl < fw ->
  Forall (fun l => len l < fw) (fst (wrap_trace fw words pl)) /\
  len (snd (wrap_trace fw words pl)) < fw.
Proof.
  intros Hw. revert pl. induction Hw as [|w words Hlen _ IH]; intros pl Hpl.
  - split; [apply Forall_nil_2 | done].
  - cbn [wrap_trace].
    destruct (len (if truthy pl then pl ++ [SPACE] ++ w else w) <? fw) eqn:E.
    + apply IH. by apply Z.ltb_lt.
    + destruct (IH w Hlen) as [H1 H2].
      destruct (wrap_trace fw words w) as [em fin]. cbn [fst snd] in *.
      split; [by apply Forall_cons_2 | done].
Qed.

Lemma len_lstrip s : len (lstrip s) <= len s.
Proof.
  unfold len. induction s as [|c s IH]; [done|].
  cbn [lstrip]. destruct (is_space c); cbn [length]; lia.
Qed.

Lemma print_lines_bound fw line :
  line_indent line < fw ->
  Forall (fun w => len w < fw) (split line) ->
  Forall (fun l => len l < fw) (print_lines fw line).
Proof.
  intros Hi Hw. unfold print_lines.
  destruct (wrap_trace_bound fw (split line) (spaces (line_indent line)) Hw)
    as [H1 H2].
  { rewrite len_spaces. unfold line_indent in *.
    pose proof (len_lstrip line). lia. }
  destruct (wrap_trace fw (split line) (spaces (line_indent line))) as [em fin].
  cbn [fst snd] in *. destruct (truthy fin); [|done].
  apply Forall_app. split; [done|]. apply Forall_cons_2; [done|apply Forall_nil_2].
Qed.

(** X5: when, on every line of the text, the leading whitespace and every
    word are shorter than the full width, every physical line of the
    output is shorter than the nesting indent plus the full width. *)
Theorem indented_string_line_bound indent text fw :
  0 <= indent ->
  Forall (fun line => line_indent line < fw /\
                      Forall (fun word => len word < fw) (split line))
         (splitlines text) ->
  Forall (fun pl => len pl < indent + fw)
         (physical_lines (indented_string indent text fw)).
Proof.
  intros Hindent H. rewrite indented_string_print_lines.
  set (E := concat (List.map (print_lines fw) (splitlines text))).
  assert (Forall (fun l => len l < fw) E) as HE.
  { unfold E. induction H as [|l ls [Hi Hw] _ IH]; [apply Forall_nil_2|].
    cbn [List.map concat]. apply Forall_app.
    split; [by apply print_lines_bound | done]. }
  assert (Forall no_linebreak E) as Hnl.
  { unfold E. clear. induction (splitlines text) as [|l ls IH]; [apply Forall_nil_2|].
    cbn [List.map concat]. apply Forall_app.
    split; [apply print_lines_no_linebreak | done]. }
  rewrite (physical_lines_emit indent E Hnl).
  rewrite Forall_forall in *. intros pl Hpl.
  apply list_elem_of_In, in_map_iff in Hpl as (l & <- & Hl).
  rewrite len_app, len_spaces. apply list_elem_of_In, HE in Hl. lia.
Qed.

Lemma indented_string_line_bound_witness :
  Forall (fun pl => len pl < 2 + 80)
         (physical_lines (indented_string 2 (ustr "  foo bar") 80)).
Proof.
  apply indented_string_line_bound; [lia|].
  refine (@bool_decide_unpack _ _ _). vm_compute. exact I.
Defined.

(** ** Lines of whitespace *)

Lemma split_acc_all_space s :
  Forall (fun c => is_space c = true) s -> split_acc [] s = [].
Proof. induction 1 as [|c s Hc _ IH]; [done|]. cbn [split_acc]. by rewrite Hc. Qed.

Lemma lstrip_all_space s :
  Forall (fun c => is_space c = true) s -> lstrip s = [].
Proof. induction 1 as [|c s Hc _ IH]; [done|]. cbn [lstrip]. by rewrite Hc. Qed.

(** X6: a line of whitespace alone is not dropped: it is written as the
    nesting indent followed by as many spaces as it has characters; only
    the empty line writes nothing. *)
Theorem wrap_line_whitespace indent fw line :
  Forall (fun c => is_space c = true) line ->
  wrap_line indent fw [] line =
    if truthy line then spaces indent ++ spaces (len line) ++ [LF] else [].
Proof.
  intros H. unfold wrap_line, split, line_indent.
  rewrite (split_acc_all_space line H), (lstrip_all_space line H).
  cbn [wrap_words]. replace (len line - len []) with (len line) by (unfold len; simpl; lia).
  destruct line as [|c line]; [done|].
  assert (truthy (spaces (len (c :: line))) = true) as ->.
  { unfold spaces, len. rewrite Nat2Z.id. reflexivity. }
  reflexivity.
Qed.

Lemma wrap_line_whitespace_witness :
  wrap_line 2 80 [] [9%N; SPACE] = spaces 2 ++ spaces 2 ++ [LF].
Proof.
  apply (wrap_line_whitespace 2 80 [9%N; SPACE]).
  refine (@bool_decide_unpack _ _ _). vm_compute. exact I.
Defined.

(** ** The characters of a folded text *)

Lemma Forall_join (P : N -> Prop) sep ls :
  Forall P sep -> Forall (Forall P) ls -> Forall P (join sep ls).
Proof.
  intros Hsep. induction 1 as [|l ls Hl Hls IH]; [apply Forall_nil_2|].
  destruct ls as [|l' ls]; [done|].
  change (join sep (l :: l' :: ls)) with (l ++ sep ++ join sep (l' :: ls)).
  apply Forall_app. split; [done|]. apply Forall_app. split; done.
Qed.

(** X7: the folded text has no character above 128 other than the exempt
    ones, and no line-break character other than the line feed: every
    other line end of the input has become a line feed. *)
Theorem unicode_to_entities_characters text :
  Forall (fun c => stable c /\ (is_linebreak c = true -> c = LF))
         (unicode_to_entities text).
Proof.
  unfold unicode_to_entities. apply Forall_join.
  - apply Forall_cons_2; [|apply Forall_nil_2]. split; [reflexivity|done].
  - pose proof (splitlines_no_linebreak text) as H.
    induction H as [|l ls Hl _ IH]; [apply Forall_nil_2|].
    cbn [List.map]. apply Forall_cons_2; [|exact IH].
    pose proof (entities_of_line_stable l) as Hs.
    pose proof (entities_of_line_no_linebreak l Hl) as Hn.
    unfold no_linebreak in Hn. rewrite Forall_forall in *. intros c Hc. split; [by apply Hs|].
    intros E. rewrite (Hn c Hc) in E. discriminate E.
Qed.

(** X8: a text of lines separated by single line feeds, that has only
    characters the folding keeps and does not end in an empty line, is
    returned as it is. *)
Theorem unicode_to_entities_fixed_point ls :
  Forall no_linebreak ls ->
  Forall (Forall stable) ls ->
  last ls <> Some [] ->
  unicode_to_entities (join [LF] ls) = join [LF] ls.
Proof.
  intros Hnl Hst Hlast. unfold unicode_to_entities.
  rewrite (splitlines_join ls Hnl Hlast). f_equal.
  clear Hnl Hlast. induction Hst as [|l ls Hl _ IH]; [done|].
  cbn [List.map]. by rewrite IH, (entities_of_stable l Hl).
Qed.

Lemma unicode_to_entities_fixed_point_witness :
  unicode_to_entities (join [LF] [ustr "a b"; []; [1046%N]]) =
  join [LF] [ustr "a b"; []; [1046%N]].
Proof.
  apply unicode_to_entities_fixed_point.
  - refine (@bool_decide_unpack _ _ _). vm_compute. exact I.
  - repeat (apply Forall_cons_2 || apply Forall_nil_2); reflexivity.
  - discriminate.
Defined.

(** ** Folding the templating fragments *)

Lemma join_cons_sep sep x l :
  join sep (x :: l) = x ++ concat (List.map (app sep) l).
Proof.
  revert x. induction l as [|y l IH]; intros x.
  - simpl. by rewrite app_nil_r.
  - change (join sep (x :: y :: l)) with (x ++ sep ++ join sep (y :: l)).
    rewrite IH. cbn [List.map concat]. by rewrite <- app_assoc.
Qed.

(** Joining a list in which a run of pieces is already joined. *)
Lemma join_joined sep a m c :
  m <> [] ->
  join sep (a ++ [join sep m] ++ c) = join sep (a ++ m ++ c).
Proof.
  intros Hm. destruct m as [|y m]; [done|].
  destruct a as [|x a].
  - cbn [app]. rewrite !join_cons_sep, map_app, concat_app.
    by rewrite <- app_assoc.
  - cbn [app]. rewrite !(join_cons_sep sep x).
    rewrite !map_app, !concat_app. cbn [List.map concat].
    rewrite map_app, concat_app.
    rewrite (join_cons_sep sep y m). by rewrite <- !app_assoc.
Qed.

(** One round of the loop: the tokens from [begin] to [end_] become one. *)
Lemma fold_step (cls : list ustring) begin end_ :
  (begin < end_)%nat -> (end_ < length cls)%nat ->
  del_slice (begin + 1) (end_ + 2)
    (list_insert_at begin (join [SPACE] (slice begin (end_ + 1) cls)) cls) =
  take begin cls ++ [join [SPACE] (slice begin (end_ + 1) cls)]
    ++ drop (end_ + 1) cls.
Proof.
  intros Hbe He. unfold del_slice, list_insert_at.
  set (x := join [SPACE] (slice begin (end_ + 1) cls)).
  assert (length (take begin cls) = begin) as Hlen
    by (rewrite length_take; lia).
  rewrite (app_assoc (take begin cls) [x]). f_equal.
  - rewrite take_app, Hlen. rewrite take_take.
    replace (begin + 1 - begin)%nat with 1%nat by lia.
    replace (min (begin + 1) begin) with begin by lia. done.
  - rewrite drop_app, Hlen.
    rewrite (drop_ge (take begin cls)) by lia.
    replace (end_ + 2 - begin)%nat with (S (end_ + 1 - begin)) by lia.
    cbn [drop app]. rewrite drop_drop. f_equal. lia.
Qed.

Lemma fold_step_join (cls : list ustring) begin end_ :
  (begin < end_)%nat -> (end_ < length cls)%nat ->
  join [SPACE]
    (del_slice (begin + 1) (end_ + 2)
       (list_insert_at begin (join [SPACE] (slice begin (end_ + 1) cls)) cls)) =
  join [SPACE] cls.
Proof.
  intros Hbe He. rewrite fold_step by done.
  rewrite join_joined.
  - f_equal. unfold slice.
    replace (drop (end_ + 1) cls)
      with (drop (end_ + 1 - begin) (drop begin cls))
      by (rewrite drop_drop; f_equal; lia).
    rewrite take_drop. apply take_drop.
  - intros Hm. apply (f_equal length) in Hm. unfold slice in Hm.
    rewrite length_take, length_drop in Hm. simpl in Hm. lia.
Qed.

Lemma fold_step_length (cls : list ustring) begin end_ :
  (begin < end_)%nat -> (end_ < length cls)%nat ->
  (begin <
   length (del_slice (begin + 1) (end_ + 2)
             (list_insert_at begin
                (join [SPACE] (slice begin (end_ + 1) cls)) cls)))%nat.
Proof.
  intros Hbe He. rewrite fold_step by done.
  rewrite !length_app, length_take. simpl. lia.
Qed.

Lemma desc_below_mono n m ps :
  desc_below n ps -> (n <= m)%nat -> desc_below m ps.
Proof. destruct ps as [|p ps]; [done|]. intros [H1 H2] Hnm. split; [lia|done]. Qed.

Lemma fold_pairs_join ps :
  forall cls, desc_below (length cls) ps ->
              join [SPACE] (fold_pairs ps cls) = join [SPACE] cls.
Proof.
  enough ((forall cls, desc_below (length cls) ps ->
             join [SPACE] (fold_pairs ps cls) = join [SPACE] cls) /\
          (forall e cls, desc_below (length cls) (e :: ps) ->
             join [SPACE] (fold_pairs (e :: ps) cls) = join [SPACE] cls))
    as [H _] by exact H.
  induction ps as [|b ps [IH1 IH2]]; [split; intros; done|].
  split; [apply IH2|].
  intros e cls (He & Hb & Hps). cbn [fold_pairs].
  rewrite IH1.
  - by apply fold_step_join.
  - apply (desc_below_mono b); [done|].
    pose proof (fold_step_length cls b e Hb He). lia.
Qed.

Lemma marker_positions_ge i cls p :
  p ∈ marker_positions i cls -> (i <= p)%nat.
Proof.
  revert i. induction cls as [|t cls IH]; intros i; cbn [marker_positions].
  - by intros ?%elem_of_nil.
  - destruct (member t markers).
    + intros [->|H]%elem_of_cons; [lia|]. apply IH in H. lia.
    + intros H. apply IH in H. lia.
Qed.

Lemma desc_below_snoc n ps p :
  desc_below n ps -> (forall q, q ∈ ps -> (p < q)%nat) -> (p < n)%nat ->
  desc_below n (ps ++ [p]).
Proof.
  revert n. induction ps as [|q ps IH]; intros n Hd Hlt Hn.
  - by split.
  - destruct Hd as [Hq Hd]. split; [done|]. apply IH; [done| |].
    + intros q' Hq'. apply Hlt. by right.
    + apply Hlt. by left.
Qed.

Lemma marker_positions_desc i cls :
  desc_below (i + length cls) (rev (marker_positions i cls)).
Proof.
  revert i. induction cls as [|t cls IH]; intros i; cbn [marker_positions].
  - done.
  - specialize (IH (S i)).
    replace (i + length (t :: cls))%nat with (S i + length cls)%nat
      by (cbn [length]; lia).
    destruct (member t markers); [|done].
    cbn [rev]. apply desc_below_snoc; [done| |lia].
    intros q Hq. apply list_elem_of_In in Hq.
    apply (proj2 (in_rev _ _)) in Hq. apply list_elem_of_In in Hq.
    apply marker_positions_ge in Hq. lia.
Qed.

(** X9: folding never changes the text of the attribute: the folded tokens
    joined by single spaces are the tokens joined by single spaces. *)
Theorem fold_jinja_tags_join cls cls' :
  fold_jinja_tags cls = Ok cls' ->
  join [SPACE] cls' = join [SPACE] cls.
Proof.
  unfold fold_jinja_tags. destruct (_ && _); [by intros [= <-]|].
  destruct (negb _); [done|]. intros [= <-].
  apply fold_pairs_join. apply (marker_positions_desc 0 cls).
Qed.

Lemma fold_jinja_tags_join_witness :
  join [SPACE] [ustr "a"; ustr "{{ b }}"; ustr "c"] =
  join [SPACE] [ustr "a"; ustr "{{"; ustr "b"; ustr "}}"; ustr "c"].
Proof. apply fold_jinja_tags_join. reflexivity. Defined.

(** X10: folding fails exactly when the token list has an opening marker
    and an odd number of markers, and the failed assertion is the only
    error it raises; in every other case it returns a token list. *)
Theorem fold_jinja_tags_failure cls :
  (fold_jinja_tags cls = Raise AssertionError <->
   member (ustr "{%") cls || member (ustr "{{") cls = true /\
   Nat.odd (marker_count cls) = true) /\
  (forall e, fold_jinja_tags cls = Raise e -> e = AssertionError) /\
  (member (ustr "{%") cls || member (ustr "{{") cls = false \/
   Nat.odd (marker_count cls) = false ->
   exists cls', fold_jinja_tags cls = Ok cls').
Proof.
  assert (forall e, fold_jinja_tags cls = Raise e ->
            e = AssertionError /\
            member (ustr "{%") cls || member (ustr "{{") cls = true /\
            Nat.odd (marker_count cls) = true) as Hraise.
  { intros e He. unfold fold_jinja_tags in He.
    destruct (negb (member (ustr "{%") cls) && negb (member (ustr "{{") cls))
      eqn:E; [discriminate He|].
    rewrite marker_positions_length in He.
    destruct (negb (marker_count cls mod 2 =? 0)%nat) eqn:Em; [|discriminate He].
    injection He as <-. split; [reflexivity|]. split.
    - apply andb_false_iff in E as [E|E]; apply negb_false_iff in E;
        rewrite E; [reflexivity | apply orb_true_r].
    - apply negb_true_iff, Nat.eqb_neq in Em.
      rewrite <- Nat.negb_even. apply negb_true_iff.
      destruct (Nat.even (marker_count cls)) eqn:Ev; [|reflexivity].
      apply Nat.even_spec in Ev as [k Hk]. rewrite Hk in Em.
      rewrite Nat.mul_comm, Nat.Div0.mod_mul in Em. done. }
  split; [split|split].
  - intros H. by destruct (Hraise _ H) as (_ & Hopen & Hodd).
  - intros [Hopen Hodd]. by apply fold_jinja_tags_odd.
  - intros e He. by destruct (Hraise e He).
  - intros Hnot. destruct (fold_jinja_tags cls) as [cls'|e] eqn:E; [by eexists|].
    destruct (Hraise e eq_refl) as (_ & Hopen & Hodd).
    destruct Hnot as [H|H]; congruence.
Qed.

Lemma fold_jinja_tags_failure_witness :
  fold_jinja_tags [ustr "{{"; ustr "x"] = Raise AssertionError /\
  exists cls', fold_jinja_tags [ustr "%}"; ustr "x"] = Ok cls'.
Proof.
  split.
  - apply (proj1 (fold_jinja_tags_failure [ustr "{{"; ustr "x"])).
    split; reflexivity.
  - apply (proj2 (proj2 (fold_jinja_tags_failure [ustr "%}"; ustr "x"]))).
    left. reflexivity.
Defined.

(** ** The id shorthand *)

Lemma has_reserved_RE_match s : has_reserved s = false -> RE_COMPILED_match s = false.
Proof.
  intros H. destruct (RE_COMPILED_match s) eqn:E; [|done].
  apply RE_match_has_reserved in E. congruence.
Qed.

(** X11: for an [id] whose value has no line feed, [get_element_id] leaves
    the state as it is and returns the empty string when the value has a
    reserved character; otherwise it returns [#] and the value, the [id]
    key is gone from the map and every other key has its value. *)
Theorem get_element_id_one_line l st v :
  dict_get ID (attrs_of st l) = Some (AStr v) ->
  single_line v ->
  (has_reserved v = true -> get_element_id l st = (Ok [], st)) /\
  (has_reserved v = false ->
   exists st',
     get_element_id l st = (Ok (ustr "#" ++ v), st') /\
     dict_get ID (attrs_of st' l) = None /\
     forall k, k <> ID -> dict_get k (attrs_of st' l) = dict_get k (attrs_of st l)).
Proof.
  intros Hid Hv. rewrite (get_element_id_single_line l st v Hid Hv).
  split; intros ->; [done|].
  eexists. split; [reflexivity|]. rewrite attrs_of_insert. split.
  - apply dict_get_del_eq.
  - intros k Hk. by apply dict_get_del_ne.
Qed.

Lemma get_element_id_one_line_witness :
  exists st',
    get_element_id 0%nat
      (State {[ 0%nat := [(ID, AStr (ustr "top")); (ustr "lang", AStr (ustr "en"))] ]} [])
    = (Ok (ustr "#top"), st') /\
    dict_get ID (attrs_of st' 0%nat) = None.
Proof.
  destruct (get_element_id_one_line 0%nat
              (State {[ 0%nat := [(ID, AStr (ustr "top"));
                                  (ustr "lang", AStr (ustr "en"))] ]} [])
              (ustr "top")) as [_ H].
  - reflexivity.
  - refine (@bool_decide_unpack _ _ _). vm_compute. exact I.
  - destruct (H eq_refl) as (st' & Hrun & Hgone & _). by exists st'.
Defined.

(** X12: the id shorthand is taken once: after a call of [get_element_id]
    that returned, a second call on the same element returns the empty
    string and changes nothing. *)
Theorem get_element_id_once l st t st1 :
  get_element_id l st = (Ok t, st1) ->
  get_element_id l st1 = (Ok [], st1).
Proof.
  rewrite (get_element_id_run l st).
  destruct (dict_get ID (attrs_of st l)) as [[v|ts]|] eqn:E.
  - destruct (RE_COMPILED_match v) eqn:Ere.
    + intros [= <- <-]. by rewrite get_element_id_run, E, Ere.
    + intros [= <- <-]. rewrite get_element_id_run, attrs_of_insert.
      by rewrite dict_get_del_eq.
  - done.
  - intros [= <- <-]. by rewrite get_element_id_run, E.
Qed.

Lemma get_element_id_once_witness :
  get_element_id 0%nat (State {[ 0%nat := [] ]} []) =
  (Ok [], State {[ 0%nat := [] ]} []).
Proof.
  apply (get_element_id_once 0%nat
           (State {[ 0%nat := [(ID, AStr (ustr "a"))] ]} []) (ustr "#a")).
  reflexivity.
Defined.

(** ** The markers after folding *)

Lemma marker_has_no_space t :
  member t markers = true -> SPACE ∉ t.
Proof.
  unfold member, markers. cbn [existsb]. unfold ustring_eqb.
  rewrite !orb_true_iff.
  intros [H|[H|[H|[H|H]]]]; try done;
    apply bool_decide_eq_true in H; subst t; intros Hin;
    repeat (apply elem_of_cons in Hin as [Hin|Hin]; [discriminate Hin|]);
    by apply elem_of_nil in Hin.
Qed.

Lemma join_two_has_space x y m : SPACE ∈ join [SPACE] (x :: y :: m).
Proof.
  change (join [SPACE] (x :: y :: m)) with (x ++ SPACE :: join [SPACE] (y :: m)).
  apply elem_of_app. right. by left.
Qed.

Lemma markers_within_positions i cls :
  forall j t, cls !! j = Some t -> member t markers = true ->
              (i + j)%nat ∈ marker_positions i cls.
Proof.
  revert i. induction cls as [|t0 cls IH]; intros i j t Hj Ht; [done|].
  cbn [marker_positions]. destruct j as [|j].
  - injection Hj as ->. rewrite Ht. rewrite Nat.add_0_r. by left.
  - simpl in Hj. specialize (IH (S i) j t Hj Ht).
    replace (i + S j)%nat with (S i + j)%nat by lia.
    destruct (member t0 markers); [by right | done].
Qed.

Lemma desc_below_lt n ps p : desc_below n ps -> p ∈ ps -> (p < n)%nat.
Proof.
  revert n. induction ps as [|q ps IH]; intros n Hd Hp.
  - by apply elem_of_nil in Hp.
  - destruct Hd as [Hq Hd]. apply elem_of_cons in Hp as [->|Hp]; [done|].
    specialize (IH q Hd Hp). lia.
Qed.

Lemma fold_pairs_no_marker ps :
  forall cls, desc_below (length cls) ps -> markers_within ps cls ->
              Nat.even (length ps) = true ->
              Forall (fun t => member t markers = false) (fold_pairs ps cls).
Proof.
  enough ((forall cls, desc_below (length cls) ps -> markers_within ps cls ->
             Nat.even (length ps) = true ->
             Forall (fun t => member t markers = false) (fold_pairs ps cls)) /\
          (forall e cls, desc_below (length cls) (e :: ps) ->
             markers_within (e :: ps) cls ->
             Nat.even (length (e :: ps)) = true ->
             Forall (fun t => member t markers = false)
                    (fold_pairs (e :: ps) cls)))
    as [H _] by exact H.
  induction ps as [|b ps [IH1 IH2]].
  - split; [|intros; done].
    intros cls _ Hm _. apply Forall_lookup. intros i t Hi.
    destruct (member t markers) eqn:E; [|done].
    by apply (Hm i t Hi), elem_of_nil in E.
  - split; [apply IH2|].
    intros e cls (He & Hb & Hps) Hm Hev. cbn [fold_pairs].
    assert (Nat.even (length ps) = true) as Hev' by exact Hev.
    rewrite fold_step by done.
    apply IH1; [| |done].
    + apply (desc_below_mono b); [done|].
      rewrite !length_app, length_take. simpl. lia.
    + intros i t Hi Ht.
      assert (length (take b cls) = b) as Hlen by (rewrite length_take; lia).
      destruct (decide (i < b)%nat) as [Hlt|Hge].
      * rewrite lookup_app_l in Hi by lia.
        rewrite lookup_take_lt in Hi by lia.
        specialize (Hm i t Hi Ht).
        apply elem_of_cons in Hm as [->|Hm]; [lia|].
        apply elem_of_cons in Hm as [->|Hm]; [lia|]. done.
      * exfalso. rewrite lookup_app_r in Hi by lia. rewrite Hlen in Hi.
        destruct (i - b)%nat as [|k] eqn:Ek.
        -- simpl in Hi. injection Hi as <-.
           apply marker_has_no_space in Ht. apply Ht.
           unfold slice. 
           destruct (take (e + 1 - b) (drop b cls)) as [|x [|y m]] eqn:Em.
           ++ apply (f_equal length) in Em.
              rewrite length_take, length_drop in Em. simpl in Em. lia.
           ++ apply (f_equal length) in Em.
              rewrite length_take, length_drop in Em. simpl in Em. lia.
           ++ apply join_two_has_space.
        -- simpl in Hi. rewrite lookup_drop in Hi.
           specialize (Hm _ t Hi Ht).
           apply elem_of_cons in Hm as [Hm|Hm]; [lia|].
           apply elem_of_cons in Hm as [Hm|Hm]; [lia|].
           pose proof (desc_below_lt b ps _ Hps Hm). lia.
Qed.

(** With an opening marker in the list, a folding that returns leaves no
    marker. *)
Lemma fold_jinja_tags_all_folded cls cls' :
  fold_jinja_tags cls = Ok cls' ->
  member (ustr "{%") cls || member (ustr "{{") cls = true ->
  Forall (fun t => member t markers = false) cls'.
Proof.
  unfold fold_jinja_tags. intros H Hopen.
  destruct (negb (member (ustr "{%") cls) && negb (member (ustr "{{") cls)) eqn:E.
  { apply andb_true_iff in E as [E1 E2]. apply negb_true_iff in E1, E2.
    rewrite E1, E2 in Hopen. discriminate Hopen. }
  destruct (negb (length (marker_positions 0 cls) mod 2 =? 0)%nat) eqn:Eodd;
    [discriminate H|]. injection H as <-.
  apply negb_false_iff, Nat.eqb_eq in Eodd.
  apply fold_pairs_no_marker.
  - apply (marker_positions_desc 0 cls).
  - intros i t Hi Ht. apply list_elem_of_In, in_rev, list_elem_of_In.
    rewrite rev_involutive.
    apply (markers_within_positions 0 cls i t Hi Ht).
  - rewrite length_rev.
    apply Nat.even_spec. exists (length (marker_positions 0 cls) / 2)%nat.
    pose proof (Nat.div_mod_eq (length (marker_positions 0 cls)) 2). lia.
Qed.

Lemma no_marker_no_opener cls :
  Forall (fun t => member t markers = false) cls ->
  member (ustr "{%") cls = false /\ member (ustr "{{") cls = false.
Proof.
  intros Hno. rewrite Forall_forall in Hno. split.
  - destruct (member (ustr "{%") cls) eqn:Em; [|done].
    unfold member in Em. apply existsb_exists in Em as (t & Hin & Ht).
    apply bool_decide_eq_true in Ht. subst t.
    by specialize (Hno _ (proj2 (list_elem_of_In _ _) Hin)).
  - destruct (member (ustr "{{") cls) eqn:Em; [|done].
    unfold member in Em. apply existsb_exists in Em as (t & Hin & Ht).
    apply bool_decide_eq_true in Ht. subst t.
    by specialize (Hno _ (proj2 (list_elem_of_In _ _) Hin)).
Qed.

Lemma fold_jinja_tags_unopened cls :
  member (ustr "{%") cls || member (ustr "{{") cls = false ->
  fold_jinja_tags cls = Ok cls.
Proof.
  intros [H1 H2]%orb_false_iff. unfold fold_jinja_tags. by rewrite H1, H2.
Qed.

(** X13: after a folding that returned, no token is an opening marker
    [{%] or [{{]; when the token list had one, no marker of any kind is
    left: every marker has gone into a fragment. *)
Theorem fold_jinja_tags_markers cls cls' :
  fold_jinja_tags cls = Ok cls' ->
  member (ustr "{%") cls' = false /\ member (ustr "{{") cls' = false /\
  (member (ustr "{%") cls || member (ustr "{{") cls = true ->
   Forall (fun t => member t markers = false) cls').
Proof.
  intros Hfold.
  destruct (member (ustr "{%") cls || member (ustr "{{") cls) eqn:Hopen.
  - pose proof (fold_jinja_tags_all_folded cls cls' Hfold Hopen) as Hno.
    destruct (no_marker_no_opener cls' Hno) as [H1 H2].
    split; [exact H1|]. split; [exact H2|]. intros _. exact Hno.
  - rewrite (fold_jinja_tags_unopened cls Hopen) in Hfold. injection Hfold as <-.
    apply orb_false_iff in Hopen as [H1 H2].
    split; [exact H1|]. split; [exact H2|]. intros H. discriminate H.
Qed.

Lemma fold_jinja_tags_markers_witness :
  member (ustr "{%") [ustr "{% if x %}"; ustr "y"] = false.
Proof.
  apply (fold_jinja_tags_markers
           [ustr "{%"; ustr "if"; ustr "x"; ustr "%}"; ustr "y"]
           [ustr "{% if x %}"; ustr "y"]).
  reflexivity.
Defined.

(** ** The class shorthand, taken once *)

Lemma filter_filter_same {A} (f : A -> bool) l :
  List.filter f (List.filter f l) = List.filter f l.
Proof.
  induction l as [|x l IH]; [done|]. cbn [List.filter].
  destruct (f x) eqn:E; [|done]. cbn [List.filter]. by rewrite E, IH.
Qed.

Lemma existsb_filter_same {A} (f : A -> bool) l :
  existsb f (List.filter f l) = existsb f l.
Proof.
  induction l as [|x l IH]; [done|]. cbn [List.filter existsb].
  destruct (f x) eqn:E; [|done]. cbn [existsb]. by rewrite E.
Qed.

Lemma shorthand_reserved l : shorthand (List.filter RE_COMPILED_match l) = [].
Proof.
  unfold shorthand.
  assert (List.filter plain (List.filter RE_COMPILED_match l) = []) as ->; [|done].
  induction l as [|x l IH]; [done|]. cbn [List.filter].
  destruct (RE_COMPILED_match x) eqn:E; [|done]. cbn [List.filter].
  unfold plain at 1. rewrite E, andb_false_r. done.
Qed.

Lemma member_filter x (f : ustring -> bool) l :
  member x l = false -> member x (List.filter f l) = false.
Proof.
  unfold member. induction l as [|y l IH]; [done|]. cbn [existsb List.filter].
  intros [H1 H2]%orb_false_iff. destruct (f y); [|by apply IH].
  cbn [existsb]. by rewrite H1, IH.
Qed.

Lemma fold_jinja_tags_no_opener cls :
  member (ustr "{%") cls = false -> member (ustr "{{") cls = false ->
  fold_jinja_tags cls = Ok cls.
Proof. intros H1 H2. unfold fold_jinja_tags. by rewrite H1, H2. Qed.

Lemma chars_of_reserved s :
  List.map (fun ch => [ch])
    (concat (List.filter RE_COMPILED_match (List.map (fun ch : N => [ch]) s))) =
  List.filter RE_COMPILED_match (List.map (fun ch => [ch]) s).
Proof.
  induction s as [|c s IH]; [done|]. cbn [List.map List.filter].
  destruct (RE_COMPILED_match [c]); [|done].
  cbn [concat app List.map]. by rewrite IH.
Qed.

Lemma state_insert_same st l d :
  State (<[l := d]> (store (State (<[l := d]> (store st)) (stream st))))
        (stream (State (<[l := d]> (store st)) (stream st))) =
  State (<[l := d]> (store st)) (stream st).
Proof. cbn [store stream]. by rewrite insert_insert_eq. Qed.

(** X14: the class shorthand is taken once: after a call of
    [get_element_class] that returned, a second call on the same element
    returns the empty string and changes nothing. *)
Theorem get_element_class_once l st t st1 :
  get_element_class l st = (Ok t, st1) ->
  get_element_class l st1 = (Ok [], st1).
Proof.
  destruct (dict_get CLASS (attrs_of st l)) as [[s|cls]|] eqn:E.
  - rewrite (get_element_class_run_str l st s E). intros [= <- <-].
    set (chars := List.map (fun ch : N => [ch]) s) in *.
    destruct (existsb RE_COMPILED_match chars) eqn:Ex.
    + rewrite (get_element_class_run_str _ _
                 (concat (List.filter RE_COMPILED_match chars)))
        by (rewrite attrs_of_insert; apply dict_get_set_eq).
      unfold chars. rewrite chars_of_reserved. fold chars.
      rewrite shorthand_reserved, existsb_filter_same, Ex, filter_filter_same.
      rewrite attrs_of_insert, dict_set_set. by rewrite state_insert_same.
    + apply get_element_class_absent. rewrite attrs_of_insert.
      apply dict_get_del_eq.
  - rewrite (get_element_class_run l st cls E).
    destruct (fold_jinja_tags cls) as [cls'|e] eqn:Ef; [|done].
    intros [= <- <-].
    assert (member (ustr "{%") cls' = false /\ member (ustr "{{") cls' = false)
      as [H1 H2].
    { destruct (member (ustr "{%") cls || member (ustr "{{") cls) eqn:Hopen.
      - apply no_marker_no_opener.
        apply (fold_jinja_tags_all_folded cls cls' Ef Hopen).
      - rewrite (fold_jinja_tags_unopened cls Hopen) in Ef. injection Ef as <-.
        by apply orb_false_iff in Hopen. }
    destruct (existsb RE_COMPILED_match cls') eqn:Ex.
    + rewrite (get_element_class_run _ _ (List.filter RE_COMPILED_match cls'))
        by (rewrite attrs_of_insert; apply dict_get_set_eq).
      rewrite fold_jinja_tags_no_opener by (by apply member_filter).
      rewrite shorthand_reserved, existsb_filter_same, Ex, filter_filter_same.
      rewrite attrs_of_insert, dict_set_set. by rewrite state_insert_same.
    + apply get_element_class_absent. rewrite attrs_of_insert.
      apply dict_get_del_eq.
  - rewrite (get_element_class_absent l st E). intros [= <- <-].
    by apply get_element_class_absent.
Qed.

Lemma get_element_class_once_witness :
  get_element_class 0%nat
    (State {[ 0%nat := [(CLASS, AList [ustr "b.c"])] ]} []) =
  (Ok [], State {[ 0%nat := [(CLASS, AList [ustr "b.c"])] ]} []).
Proof.
  apply (get_element_class_once 0%nat
           (State {[ 0%nat := [(CLASS, AList [ustr "a"; ustr "b.c"])] ]} [])
           (ustr ".a")).
  reflexivity.
Defined.

(** ** What [print_tag] writes *)

Ltac one_line := refine (@bool_decide_unpack _ _ _); vm_compute; exact I.

Lemma no_linebreak_app a b : no_linebreak a -> no_linebreak b -> no_linebreak (a ++ b).
Proof. intros Ha Hb. apply Forall_app. by split. Qed.

Lemma no_linebreak_concat ls : Forall no_linebreak ls -> no_linebreak (concat ls).
Proof.
  induction 1 as [|l ls Hl _ IH]; [apply Forall_nil_2|].
  cbn [concat]. by apply no_linebreak_app.
Qed.

Lemma no_linebreak_join sep ls :
  no_linebreak sep -> Forall no_linebreak ls -> no_linebreak (join sep ls).
Proof. intros Hsep Hls. by apply Forall_join. Qed.

Lemma Forall_filter_keep {A} (P : A -> Prop) (f : A -> bool) l :
  Forall P l -> Forall P (List.filter f l).
Proof.
  induction 1 as [|x l Hx _ IH]; [apply Forall_nil_2|]. cbn [List.filter].
  destruct (f x); [by apply Forall_cons_2 | done].
Qed.

Lemma shorthand_one_line cls :
  Forall no_linebreak cls -> no_linebreak (shorthand cls).
Proof.
  intros H. unfold shorthand. apply no_linebreak_concat.
  apply (Forall_filter_keep _ plain) in H.
  induction H as [|t ts Ht _ IH]; [apply Forall_nil_2|].
  cbn [List.map]. apply Forall_cons_2; [|exact IH].
  apply no_linebreak_app; [one_line | done].
Qed.

Lemma fold_jinja_tags_one_line cls cls' :
  Forall no_linebreak cls -> fold_jinja_tags cls = Ok cls' ->
  Forall no_linebreak cls'.
Proof.
  intros H. unfold fold_jinja_tags.
  destruct (negb (member (ustr "{%") cls) && negb (member (ustr "{{") cls));
    [by intros [= <-]|].
  destruct (negb (length (marker_positions 0 cls) mod 2 =? 0)%nat);
    [intros E; discriminate E|]. intros [= <-].
  apply fold_pairs_Forall; [|done].
  intros ts Hts. apply no_linebreak_join; [one_line | done].
Qed.

Lemma dict_get_one_line k d v :
  dict_one_line d -> dict_get k d = Some v -> value_one_line v.
Proof.
  induction 1 as [|[k0 v0] d [_ Hv] _ IH]; [done|]. cbn [dict_get].
  destruct (ustring_eqb k0 k); [by intros [= <-] | exact IH].
Qed.

Lemma dict_del_one_line k d : dict_one_line d -> dict_one_line (dict_del k d).
Proof.
  induction 1 as [|[k0 v0] d Hkv _ IH]; [apply Forall_nil_2|]. cbn [dict_del].
  destruct (ustring_eqb k0 k); [done | by apply Forall_cons_2].
Qed.

Lemma dict_set_one_line k v d :
  no_linebreak k -> value_one_line v -> dict_one_line d ->
  dict_one_line (dict_set k v d).
Proof.
  intros Hk Hv. induction 1 as [|[k0 v0] d [Hk0 Hv0] Hd IH]; cbn [dict_set].
  - apply Forall_cons_2; [by split | apply Forall_nil_2].
  - destruct (ustring_eqb k0 k); apply Forall_cons_2; try done; by split.
Qed.

Lemma attr_piece_one_line kv :
  no_linebreak (fst kv) /\ value_one_line (snd kv) -> no_linebreak (attr_piece kv).
Proof.
  destruct kv as [k [s|l]]; cbn [fst snd value_one_line attr_piece];
    intros [Hk Hv].
  - repeat apply no_linebreak_app; try done; one_line.
  - repeat apply no_linebreak_app; try done; try one_line.
    apply no_linebreak_join; [one_line | done].
Qed.

Lemma attr_str_one_line d : dict_one_line d -> no_linebreak (attr_str d).
Proof.
  intros H. unfold attr_str. destruct (negb (truthy d)); [apply Forall_nil_2|].
  repeat apply no_linebreak_app; try one_line.
  apply no_linebreak_join; [one_line|].
  induction H as [|kv d' Hkv _ IH]; [apply Forall_nil_2|].
  cbn [List.map]. apply Forall_cons_2; [by apply attr_piece_one_line | done].
Qed.

Lemma tag_head_one_line nm tag :
  no_linebreak nm -> no_linebreak tag -> no_linebreak (tag_head nm tag).
Proof.
  intros Hn Ht. unfold tag_head.
  destruct (ustring_eqb nm (ustr "div")); [destruct (ustring_eqb tag [])|];
    repeat apply no_linebreak_app; try done; one_line.
Qed.

Lemma adjacency_one_line elem marks :
  adjacency elem [] = Ok marks -> no_linebreak marks.
Proof.
  unfold adjacency. destruct (member (name elem) inline_names).
  - destruct (is_outer_nospace elem) as [[|]|e]; cbn [result_bind];
      destruct (is_inner_nospace elem) as [[|]|e']; cbn [result_bind];
      intros [= <-]; one_line.
  - intros [= <-]. apply Forall_nil_2.
Qed.

(** The id step on a dictionary without line break. *)
Lemma get_element_id_one_line_step l st id_tag st1 :
  dict_one_line (attrs_of st l) ->
  get_element_id l st = (Ok id_tag, st1) ->
  no_linebreak id_tag /\ dict_one_line (attrs_of st1 l) /\ stream st1 = stream st.
Proof.
  intros Hd. rewrite get_element_id_run.
  destruct (dict_get ID (attrs_of st l)) as [[v|ts]|] eqn:E.
  - destruct (RE_COMPILED_match v).
    + intros [= <- <-]. split; [apply Forall_nil_2 | done].
    + assert (no_linebreak (ustr "#" ++ v)) as Hv.
      { apply no_linebreak_app; [one_line|].
        apply (dict_get_one_line _ _ _ Hd E). }
      intros [= <- <-]. rewrite attrs_of_insert.
      split; [exact Hv|]. split; [by apply dict_del_one_line | done].
  - intros H. discriminate H.
  - intros [= <- <-]. split; [apply Forall_nil_2 | done].
Qed.

Lemma chars_one_line s :
  no_linebreak s -> Forall no_linebreak (List.map (fun ch : N => [ch]) s).
Proof.
  induction 1 as [|c s' Hc _ IH]; [apply Forall_nil_2|].
  cbn [List.map]. apply Forall_cons_2; [|exact IH].
  apply Forall_cons_2; [done | apply Forall_nil_2].
Qed.

(** The class step on a dictionary without line break. *)
Lemma get_element_class_one_line_step l st class_tag st2 :
  dict_one_line (attrs_of st l) ->
  get_element_class l st = (Ok class_tag, st2) ->
  no_linebreak class_tag /\ dict_one_line (attrs_of st2 l) /\
  stream st2 = stream st.
Proof.
  intros Hd.
  destruct (dict_get CLASS (attrs_of st l)) as [[s|cls]|] eqn:E.
  - rewrite (get_element_class_run_str l st s E). intros [= <- <-].
    pose proof (dict_get_one_line _ _ _ Hd E) as Hs. cbn [value_one_line] in Hs.
    pose proof (chars_one_line s Hs) as Hchars.
    rewrite attrs_of_insert. split; [by apply shorthand_one_line|].
    split; [|done]. destruct (existsb _ _).
    + apply dict_set_one_line; [one_line | | done].
      cbn [value_one_line]. apply no_linebreak_concat.
      by apply Forall_filter_keep.
    + by apply dict_del_one_line.
  - rewrite (get_element_class_run l st cls E).
    destruct (fold_jinja_tags cls) as [cls'|e] eqn:Ef;
      [|intros H; discriminate H].
    intros [= <- <-].
    pose proof (dict_get_one_line _ _ _ Hd E) as Hcls. cbn [value_one_line] in Hcls.
    pose proof (fold_jinja_tags_one_line cls cls' Hcls Ef) as Hcls'.
    rewrite attrs_of_insert. split; [by apply shorthand_one_line|].
    split; [|done]. destruct (existsb _ _).
    + apply dict_set_one_line; [one_line | | done].
      cbn [value_one_line]. by apply Forall_filter_keep.
    + by apply dict_del_one_line.
  - rewrite (get_element_class_absent l st E). intros [= <- <-].
    split; [apply Forall_nil_2 | done].
Qed.

(** X15: [print_tag] writes one line or nothing.  When it raises, the
    stream is as it was.  When it returns, for an element whose name and
    whose attribute keys and values have no line-break character, the
    stream has grown by the indent, a tag without line break and one line
    feed. *)
Theorem print_tag_stream indent_str elem st :
  (forall e st',
     print_tag indent_str elem st = (Raise e, st') -> stream st' = stream st) /\
  (no_linebreak (name elem) ->
   dict_one_line (attrs_of st (attrs elem)) ->
   forall u st',
     print_tag indent_str elem st = (Ok u, st') ->
     exists tag,
       no_linebreak tag /\
       stream st' = stream st ++ indent_str ++ tag ++ [LF]).
Proof.
  destruct (decide (name elem = ustr "style")) as [Hn|Hn].
  { rewrite (print_tag_style indent_str elem st Hn). split.
    - intros e st' H. discriminate H.
    - intros _ _ u st' [= _ <-]. exists (ustr ":css"). split; [one_line|done]. }
  rewrite (print_tag_run indent_str elem st Hn). split.
  - intros e st'.
    destruct (get_element_id_effect (attrs elem) st)
      as (r1 & st1 & E1 & [S1 _] & _).
    rewrite E1. destruct r1 as [id_tag|e1]; [|by intros [= _ <-]].
    destruct (get_element_class_effect (attrs elem) st1)
      as (r2 & st2 & E2 & [S2 _] & _).
    rewrite E2. destruct r2 as [class_tag|e2]; [|intros [= _ <-]; congruence].
    destruct (adjacency elem []) as [marks|e3]; [intros H; discriminate H|].
    intros [= _ <-]. congruence.
  - intros Hname Hd u st'.
    destruct (get_element_id (attrs elem) st) as [[id_tag|e1] st1] eqn:E1;
      [|intros H; discriminate H].
    destruct (get_element_id_one_line_step _ _ _ _ Hd E1) as (Hid & Hd1 & S1).
    destruct (get_element_class (attrs elem) st1) as [[class_tag|e2] st2] eqn:E2;
      [|intros H; discriminate H].
    destruct (get_element_class_one_line_step _ _ _ _ Hd1 E2) as (Hcl & Hd2 & S2).
    destruct (adjacency elem []) as [marks|e3] eqn:E3; [|intros H; discriminate H].
    intros [= _ <-]. eexists. split; [|cbn [stream]; by rewrite S2, S1].
    apply no_linebreak_app; [|apply no_linebreak_app].
    + apply tag_head_one_line; [done|]. by apply no_linebreak_app.
    + by apply attr_str_one_line.
    + by apply (adjacency_one_line elem).
Qed.

Lemma print_tag_stream_witness :
  let elem := Element (ustr "a") 0 [NavigableString (ustr "x")] None None in
  let st := State {[ 0%nat := [(ID, AStr (ustr "top"));
                               (CLASS, AList [ustr "k"; ustr "a.b"])] ]}
                  (ustr "%p" ++ [LF]) in
  exists tag,
    no_linebreak tag /\
    stream (snd (print_tag (spaces 2) elem st)) =
      stream st ++ spaces 2 ++ tag ++ [LF].
Proof.
  intros elem st.
  apply (proj2 (print_tag_stream (spaces 2) elem st)) with (u := tt).
  - one_line.
  - repeat (apply Forall_cons_2 || apply Forall_nil_2);
      (split; [one_line|]); cbn [snd value_one_line]; [one_line|].
    repeat (apply Forall_cons_2 || apply Forall_nil_2); one_line.
  - vm_compute. reflexivity.
Defined.

(** ** Empty strings next to an inline element *)

Lemma nospace_before_raise e x :
  nospace_before e = Raise x -> e = Some (NavigableString []).
Proof.
  unfold nospace_before, last_char.
  destruct e as [[nm l cs|s]|]; cbn [is_tag unicode]; try done.
  destruct (last s) eqn:El; [done|]. intros _.
  apply last_None in El. by subst s.
Qed.

Lemma nospace_after_raise e x :
  nospace_after e = Raise x -> e = Some (NavigableString []).
Proof.
  unfold nospace_after, first_char.
  destruct e as [[nm l cs|s]|]; cbn [is_tag unicode]; try done.
  by destruct s.
Qed.

(** X16: [print_tag] raises [IndexError] only on an inline element that has
    an empty string as previous sibling, as next sibling, as first child or
    as last child. *)
Theorem print_tag_index_error indent_str elem st :
  fst (print_tag indent_str elem st) = Raise IndexError ->
  member (name elem) inline_names = true /\
  (previous_sibling elem = Some (NavigableString []) \/
   next_sibling elem = Some (NavigableString []) \/
   head (contents elem) = Some (NavigableString []) \/
   last (contents elem) = Some (NavigableString [])).
Proof.
  destruct (decide (name elem = ustr "style")) as [Hn|Hn].
  { by rewrite (print_tag_style indent_str elem st Hn). }
  rewrite (print_tag_run indent_str elem st Hn).
  destruct (get_element_id_effect (attrs elem) st)
    as (r1 & st1 & E1 & _ & _ & R1).
  rewrite E1. destruct r1 as [id_tag|e].
  2:{ destruct R1 as [-> _]. done. }
  destruct (get_element_class_effect (attrs elem) st1)
    as (r2 & st2 & E2 & _ & _ & R2).
  rewrite E2. destruct r2 as [class_tag|e].
  2:{ destruct R2 as [-> _]. done. }
  unfold adjacency. destruct (member (name elem) inline_names); [|done].
  intros H. split; [done|].
  unfold is_outer_nospace, is_inner_nospace in H.
  destruct (nospace_before (previous_sibling elem)) as [b1|x] eqn:Eb.
  2:{ left. by apply nospace_before_raise in Eb. }
  destruct (nospace_after (next_sibling elem)) as [b2|x] eqn:Ea.
  2:{ right. left. by apply nospace_after_raise in Ea. }
  cbn [result_bind] in H.
  destruct (contents elem) as [|first rest] eqn:Ec; [done|].
  destruct (nospace_after (Some first)) as [b3|x] eqn:Ef.
  2:{ right. right. left. by apply nospace_after_raise in Ef. }
  destruct (nospace_before (last (first :: rest))) as [b4|x] eqn:El.
  2:{ right. right. right. by apply nospace_before_raise in El. }
  done.
Qed.

Lemma print_tag_index_error_witness :
  member (ustr "em") inline_names = true /\
  (Some (NavigableString []) = Some (NavigableString []) \/
   @None node = Some (NavigableString []) \/
   head (@nil node) = Some (NavigableString []) \/
   last (@nil node) = Some (NavigableString [])).
Proof.
  apply (print_tag_index_error []
           (Element (ustr "em") 0 [] (Some (NavigableString [])) None)
           (State ∅ [])).
  reflexivity.
Defined.

(** ** Elements with a clean id and clean classes *)

Lemma clean_tokens cls :
  Forall (fun t => has_reserved t = false) cls ->
  member (ustr "{%") cls = false /\ member (ustr "{{") cls = false /\
  existsb RE_COMPILED_match cls = false /\
  List.filter plain cls = List.filter truthy cls.
Proof.
  induction 1 as [|t cls Ht _ (IH1 & IH2 & IH3 & IH4)]; [done|].
  unfold member in *. cbn [existsb List.filter].
  rewrite IH1, IH2, IH3, IH4, (has_reserved_RE_match t Ht).
  unfold ustring_eqb.
  split; [|split; [|split; [done|]]].
  - rewrite orb_false_r. apply bool_decide_eq_false. intros <-. discriminate Ht.
  - rewrite orb_false_r. apply bool_decide_eq_false. intros <-. discriminate Ht.
  - unfold plain. rewrite (has_reserved_RE_match t Ht), andb_true_r.
    unfold len. by destruct t.
Qed.

(** X17: an element, other than [style], whose [id] has no reserved
    character and whose [class] tokens have none either is written as the
    tag head made of [#] and the id followed by [.] and each non-empty
    class, then the other attributes, then the adjacency markers; [id] and
    [class] are no longer in its attribute map. *)
Theorem print_tag_clean indent_str elem st v cls marks :
  name elem <> ustr "style" ->
  dict_get ID (attrs_of st (attrs elem)) = Some (AStr v) ->
  has_reserved v = false ->
  dict_get CLASS (attrs_of st (attrs elem)) = Some (AList cls) ->
  Forall (fun t => has_reserved t = false) cls ->
  adjacency elem [] = Ok marks ->
  let d' := dict_del CLASS (dict_del ID (attrs_of st (attrs elem))) in
  print_tag indent_str elem st =
    (Ok tt,
     State (<[attrs elem := d']> (store st))
       (stream st ++ indent_str
          ++ (tag_head (name elem)
                ((ustr "#" ++ v)
                   ++ concat (List.map (app (ustr ".")) (List.filter truthy cls)))
              ++ attr_str d' ++ marks)
          ++ [LF])).
Proof.
  intros Hn Hid Hv Hc Hcls Hadj. cbv zeta.
  destruct (clean_tokens cls Hcls) as (M1 & M2 & Ex & Hf).
  rewrite (print_tag_run indent_str elem st Hn).
  rewrite get_element_id_run, Hid, (has_reserved_RE_match v Hv).
  set (st1 := State (<[attrs elem := dict_del ID (attrs_of st (attrs elem))]> (store st))
                    (stream st)).
  assert (dict_get CLASS (attrs_of st1 (attrs elem)) = Some (AList cls)) as Hc1.
  { unfold st1. rewrite attrs_of_insert, dict_get_del_ne; [done|].
    intros H. by apply ID_neq_CLASS. }
  rewrite (get_element_class_run _ st1 cls Hc1).
  rewrite (fold_jinja_tags_no_opener cls M1 M2), Ex, Hadj.
  unfold shorthand. rewrite Hf.
  cbn [store stream]. rewrite attrs_of_insert.
  assert (attrs_of st1 (attrs elem) = dict_del ID (attrs_of st (attrs elem)))
    as -> by (unfold st1; apply attrs_of_insert).
  unfold st1. cbn [store stream]. by rewrite insert_insert_eq.
Qed.

Lemma print_tag_clean_witness :
  print_tag [] (Element (ustr "h1") 0 [] None None)
    (State {[ 0%nat := [(CLASS, AList [ustr "cls"]); (ID, AStr (ustr "id"))] ]} [])
  = (Ok tt, State {[ 0%nat := [] ]} (ustr "%h1#id.cls" ++ [LF])).
Proof.
  refine (eq_trans
    (print_tag_clean [] (Element (ustr "h1") 0 [] None None)
       (State {[ 0%nat := [(CLASS, AList [ustr "cls"]); (ID, AStr (ustr "id"))] ]} [])
       (ustr "id") [ustr "cls"] [] _ _ _ _ _ _) _);
    try reflexivity; try discriminate.
  apply Forall_cons_2; [reflexivity | apply Forall_nil_2].
Defined.

(** ** Text nodes *)

Lemma truthy_lstrip s : truthy (lstrip s) = existsb non_space s.
Proof.
  induction s as [|c s IH]; [done|]. cbn [lstrip existsb]. unfold non_space at 1.
  destruct (is_space c); [exact IH | done].
Qed.

Lemma existsb_lstrip s : existsb non_space (lstrip s) = existsb non_space s.
Proof.
  induction s as [|c s IH]; [done|]. cbn [lstrip].
  destruct (is_space c) eqn:E; [|done].
  cbn [existsb]. unfold non_space at 2. by rewrite E.
Qed.

Lemma existsb_rev {A} (f : A -> bool) l : existsb f (rev l) = existsb f l.
Proof.
  induction l as [|x l IH]; [done|]. cbn [rev existsb].
  rewrite existsb_app, IH. cbn [existsb]. rewrite orb_false_r. apply orb_comm.
Qed.

Lemma truthy_rev {A} (l : list A) : truthy (rev l) = truthy l.
Proof.
  destruct l as [|x l]; [done|]. cbn [rev truthy].
  by destruct (rev l).
Qed.

Lemma truthy_strip s : truthy (strip s) = existsb non_space s.
Proof.
  unfold strip, rstrip.
  by rewrite truthy_rev, truthy_lstrip, existsb_rev, existsb_lstrip.
Qed.

Lemma truthy_split_acc word s :
  truthy (split_acc word s) = truthy word || existsb non_space s.
Proof.
  revert word. induction s as [|c s IH]; intros word; cbn [split_acc existsb].
  - rewrite orb_false_r. by destruct word.
  - unfold non_space at 1. destruct (is_space c); cbn [negb orb].
    + destruct word; [apply IH | done].
    + rewrite IH, orb_true_r. by destruct word.
Qed.

Lemma truthy_split s : truthy (split s) = existsb non_space s.
Proof. apply (truthy_split_acc [] s). Qed.

(** X18: a string node never raises and never touches an attribute
    dictionary.  With the text as it is after the first-character and the
    non-ASCII replacements, it writes the wrapped text when that text has a
    word, and nothing when it has none. *)
Theorem print_elem_string indent prev next raw_string st :
  let clean_string :=
    Text.unicode_to_entities (Text.replace_reserved_first_char raw_string) in
  print_elem indent prev next (NavigableString raw_string) st =
    (Ok tt,
     State (store st)
       (stream st ++
        if truthy (split clean_string)
        then Wrap.indented_string indent clean_string 80
        else [])).
Proof.
  cbv zeta. cbn [print_elem].
  rewrite truthy_strip, <- truthy_split.
  rewrite indented_string_print_lines, split_emit_print_lines, split_splitlines.
  rewrite <- indented_string_print_lines.
  destruct (truthy (split _)); [done|].
  unfold ret. rewrite app_nil_r. by destruct st.
Qed.

(** ** The walk over the tree *)

Lemma grows_within_refl locs st : grows_within locs st st.
Proof. split; [exists []; by rewrite app_nil_r | done]. Qed.

Lemma grows_within_trans locs st1 st2 st3 :
  grows_within locs st1 st2 -> grows_within locs st2 st3 ->
  grows_within locs st1 st3.
Proof.
  intros [[o1 H1] F1] [[o2 H2] F2]. split.
  - exists (o1 ++ o2). by rewrite H2, H1, <- app_assoc.
  - intros l Hl. by rewrite F2, F1.
Qed.

Lemma grows_within_mono locs locs' st st' :
  (forall l, l ∈ locs -> l ∈ locs') ->
  grows_within locs st st' -> grows_within locs' st st'.
Proof.
  intros Hsub [Hs F]. split; [done|]. intros l Hl. apply F. intros H.
  apply Hl. by apply Hsub.
Qed.

Lemma print_tag_grows indent_str elem st :
  grows_within [attrs elem] st (snd (print_tag indent_str elem st)).
Proof.
  assert (forall st1, touches_only (attrs elem) st st1 ->
                      grows_within [attrs elem] st st1) as Ht.
  { intros st1 [Hs Hf]. split; [exists []; by rewrite app_nil_r, Hs|].
    intros l Hl. apply Hf. intros ->. apply Hl. by left. }
  destruct (decide (name elem = ustr "style")) as [Hn|Hn].
  { rewrite (print_tag_style indent_str elem st Hn). split; [by eexists|done]. }
  rewrite (print_tag_run indent_str elem st Hn).
  destruct (get_element_id_effect (attrs elem) st) as (r1 & st1 & E1 & T1 & _).
  rewrite E1. destruct r1 as [id_tag|e]; [|by apply Ht].
  destruct (get_element_class_effect (attrs elem) st1) as (r2 & st2 & E2 & T2 & _).
  rewrite E2.
  pose proof (touches_only_trans _ _ _ _ T1 T2) as T.
  destruct r2 as [class_tag|e]; [|by apply Ht].
  destruct (adjacency elem []) as [marks|e]; [|by apply Ht].
  destruct T as [Hs Hf]. split.
  - cbn [snd stream]. rewrite Hs. by eexists.
  - intros l Hl. cbn [snd store]. apply Hf. intros ->. apply Hl. by left.
Qed.

Lemma print_elem_string_grows indent prev next s st :
  grows_within [] st (snd (print_elem indent prev next (NavigableString s) st)).
Proof.
  cbn [print_elem]. destruct (truthy (strip _)).
  - split; [by eexists | done].
  - apply grows_within_refl.
Qed.

(** Induction on a tree, with the property at hand for every child. *)
Lemma node_ind_children (P : node -> Prop) :
  (forall nm l cs, Forall P cs -> P (Tag nm l cs)) ->
  (forall s, P (NavigableString s)) ->
  forall n, P n.
Proof.
  intros HT HS. fix IH 1. intros [nm l cs|s]; [|apply HS].
  apply HT. induction cs as [|c cs IHcs].
  - apply Forall_nil_2.
  - apply Forall_cons_2; [apply IH | apply IHcs].
Qed.

(** X19: rendering a tree only appends to the stream, and changes no
    attribute dictionary other than those of the tags of the tree, also
    when the render stops with an error. *)
Theorem print_elem_frame elem :
  forall indent prev next st,
    grows_within (tag_locs elem) st (snd (print_elem indent prev next elem st)).
Proof.
  induction elem as [nm l cs IHcs|s] using node_ind_children;
    intros indent prev next st.
  - cbn [print_elem tag_locs]. unfold bind at 1.
    pose proof (print_tag_grows (spaces indent) (Element nm l cs prev next) st)
      as Hpt.
    destruct (print_tag (spaces indent) (Element nm l cs prev next) st)
      as [[[]|e] st1]; cbn [snd attrs] in Hpt.
    2:{ cbn [snd]. eapply grows_within_mono; [|exact Hpt].
        intros l' ->%list_elem_of_singleton. by left. }
    eapply grows_within_trans.
    { eapply grows_within_mono; [|exact Hpt].
      intros l' ->%list_elem_of_singleton. by left. }
    eapply (grows_within_mono (concat (List.map tag_locs cs)));
      [intros l' Hl'; by right|].
    clear Hpt. generalize (@None node) as p. revert st1.
    induction IHcs as [|c cs' Hc _ IH]; intros st1 p.
    + apply grows_within_refl.
    + cbn [List.map concat]. unfold bind at 1.
      specialize (Hc (indent + 2) p (head cs') st1).
      destruct (print_elem (indent + 2) p (head cs') c st1) as [[[]|e] st2];
        cbn [snd] in *.
      * eapply grows_within_trans.
        -- eapply grows_within_mono; [|exact Hc].
           intros l' Hl'. apply elem_of_app. by left.
        -- eapply grows_within_mono; [|apply IH].
           intros l' Hl'. apply elem_of_app. by right.
      * eapply grows_within_mono; [|exact Hc].
        intros l' Hl'. apply elem_of_app. by left.
  - apply print_elem_string_grows.
Qed.

Lemma print_elem_frame_witness :
  let tree := Tag (ustr "p") 0 [Tag (ustr "a") 1 [NavigableString (ustr "x")]] in
  let st := State {[ 1%nat := [(ID, AStr (ustr "k"))];
                     2%nat := [(ID, AStr (ustr "m"))] ]} [] in
  store (snd (print_elem 0 None None tree st)) !! 2%nat = store st !! 2%nat.
Proof.
  intros tree st.
  apply (proj2 (print_elem_frame tree 0 None None st) 2%nat).
  cbn [tree tag_locs List.map concat app].
  intros H. repeat (apply elem_of_cons in H as [H|H]; [discriminate H|]).
  by apply elem_of_nil in H.
Defined.
